(** * Checkers session engine: a shallow embedding of [CheckersGame]

    This development embeds the [CheckersGame] class of the server
    (src/game/CheckersGame.js, identical to the class inlined in server.js)
    and proves what the rule engine and the room session do.

    Modelling conventions.
    - Board coordinates, row and column differences are JavaScript numbers
      that are integers here: they are [Z].
    - The board is an array of 8 arrays of 8 cells, a cell being [null] or a
      piece object.  Reading [board[r]] outside the array yields
      [undefined]; reading [undefined[c]] throws a [TypeError].  Reading
      [row[c]] outside the row yields [undefined], which is neither [null]
      nor a piece ([jscell]).
    - [this.players] is a JS object used as a map from socket id to player;
      socket ids are not array-index-like strings, so its keys keep insertion
      order: it is an association list, in that order.
    - [this.newGameRequests] is a JS [Set]: a duplicate-free list in insertion
      order.
    - Methods mutate [this] and may throw.  A command is a function from the
      state to an [outcome]: either a returned value with the new state, or a
      thrown [TypeError] with the state as mutated up to the throw.
    - [this.selectedPiece] is only ever set to [null] and never read; it is
      left out. *)

From Stdlib Require Import ZArith Zquot List String Bool Lia.
Import ListNotations.
Open Scope Z_scope.

(* ------------------------------------------------------------------ *)
(** ** Data model *)

Inductive color := red | black.

Definition color_eqb (a b : color) : bool :=
  match a, b with
  | red, red | black, black => true
  | _, _ => false
  end.

(** [this.currentPlayer === 'red' ? 'black' : 'red'] *)
Definition other (c : color) : color :=
  match c with red => black | black => red end.

(** A piece object [{ color, king }]. *)
Record piece := mkPiece { pcolor : color; king : bool }.

(** A board cell: [null] or a piece. *)
Definition cell := option piece.
Definition board := list (list cell).

(** The value read at [board[r][c]] once [board[r]] exists. *)
Inductive jscell := Undef | Null | Obj (p : piece).

Inductive gstate := waiting | playing | finished | turn_selection.

Record player := mkPlayer { pname : string; color_of : color }.

Record game := mkGame {
  roomCode : string;
  players : list (string * player);
  currentPlayer : color;
  gameState : gstate;
  winner : option color;
  board_of : board;
  mustCapture : bool;
  capturingPiece : option (Z * Z);
  newGameRequests : list string;
  turnOrderSelector : option string;
  waitingForTurnOrderSelection : bool
}.

(** Field assignments [this.f = v]. *)
Definition set_players v s := mkGame (roomCode s) v (currentPlayer s) (gameState s) (winner s) (board_of s) (mustCapture s) (capturingPiece s) (newGameRequests s) (turnOrderSelector s) (waitingForTurnOrderSelection s).
Definition set_currentPlayer v s := mkGame (roomCode s) (players s) v (gameState s) (winner s) (board_of s) (mustCapture s) (capturingPiece s) (newGameRequests s) (turnOrderSelector s) (waitingForTurnOrderSelection s).
Definition set_gameState v s := mkGame (roomCode s) (players s) (currentPlayer s) v (winner s) (board_of s) (mustCapture s) (capturingPiece s) (newGameRequests s) (turnOrderSelector s) (waitingForTurnOrderSelection s).
Definition set_winner v s := mkGame (roomCode s) (players s) (currentPlayer s) (gameState s) v (board_of s) (mustCapture s) (capturingPiece s) (newGameRequests s) (turnOrderSelector s) (waitingForTurnOrderSelection s).
Definition set_board v s := mkGame (roomCode s) (players s) (currentPlayer s) (gameState s) (winner s) v (mustCapture s) (capturingPiece s) (newGameRequests s) (turnOrderSelector s) (waitingForTurnOrderSelection s).
Definition set_mustCapture v s := mkGame (roomCode s) (players s) (currentPlayer s) (gameState s) (winner s) (board_of s) v (capturingPiece s) (newGameRequests s) (turnOrderSelector s) (waitingForTurnOrderSelection s).
Definition set_capturingPiece v s := mkGame (roomCode s) (players s) (currentPlayer s) (gameState s) (winner s) (board_of s) (mustCapture s) v (newGameRequests s) (turnOrderSelector s) (waitingForTurnOrderSelection s).
Definition set_newGameRequests v s := mkGame (roomCode s) (players s) (currentPlayer s) (gameState s) (winner s) (board_of s) (mustCapture s) (capturingPiece s) v (turnOrderSelector s) (waitingForTurnOrderSelection s).
Definition set_turnOrderSelector v s := mkGame (roomCode s) (players s) (currentPlayer s) (gameState s) (winner s) (board_of s) (mustCapture s) (capturingPiece s) (newGameRequests s) v (waitingForTurnOrderSelection s).
Definition set_waiting v s := mkGame (roomCode s) (players s) (currentPlayer s) (gameState s) (winner s) (board_of s) (mustCapture s) (capturingPiece s) (newGameRequests s) (turnOrderSelector s) v.

(** The result of a method call: a returned value and the state, or a
    thrown [TypeError] and the state as mutated before the throw. *)
Inductive outcome (A : Type) := Ret (a : A) (s : game) | Throw (s : game).
Arguments Ret {A} a s.
Arguments Throw {A} s.

(* ------------------------------------------------------------------ *)
(** ** JavaScript arrays, objects and sets *)

(** [l[i]] for an integer [i]: [undefined] ([None]) outside the array. *)
Definition js_index {A} (l : list A) (i : Z) : option A :=
  if 0 <=? i then nth_error l (Z.to_nat i) else None.

Fixpoint upd_nth {A} (l : list A) (n : nat) (x : A) : list A :=
  match l, n with
  | [], _ => []
  | _ :: t, O => x :: t
  | h :: t, S n' => h :: upd_nth t n' x
  end.

(** [l[i] = x]; every write of the engine is to an index inside the array
    (a validated destination, a vacated source, the jumped cell between
    them), so the JS growth of an array written past its end never arises;
    out of range the list is left as it is. *)
Definition js_update {A} (l : list A) (i : Z) (x : A) : list A :=
  if 0 <=? i then upd_nth l (Z.to_nat i) x else l.

(** [this.board[r][c]]: [None] when [this.board[r]] is [undefined] and the
    second subscript throws. *)
Definition get_cell (b : board) (r c : Z) : option jscell :=
  match js_index b r with
  | None => None
  | Some rw =>
      Some (match js_index rw c with
            | None => Undef
            | Some None => Null
            | Some (Some p) => Obj p
            end)
  end.

(** The truthiness of [this.board[r][c]] where the row exists: the piece, if
    any ([null] and [undefined] are both falsy). *)
Definition cell_at (b : board) (r c : Z) : option piece :=
  match js_index b r with
  | None => None
  | Some rw => match js_index rw c with Some (Some p) => Some p | _ => None end
  end.

(** [this.board[r][c] = v] *)
Definition set_cell (b : board) (r c : Z) (v : cell) : board :=
  match js_index b r with
  | None => b
  | Some rw => js_update b r (js_update rw c v)
  end.

(** [Object.keys(this.players).length] *)
Definition nkeys (ps : list (string * player)) : nat := List.length ps.

(** [this.players[id]] *)
Fixpoint lookup_player (id : string) (ps : list (string * player)) : option player :=
  match ps with
  | [] => None
  | (k, p) :: t => if String.eqb k id then Some p else lookup_player id t
  end.

(** [this.players[id] = p]: an existing key keeps its position. *)
Fixpoint obj_set (ps : list (string * player)) (id : string) (p : player) :=
  match ps with
  | [] => [(id, p)]
  | (k, q) :: t => if String.eqb k id then (k, p) :: t else (k, q) :: obj_set t id p
  end.

(** [delete this.players[id]] *)
Definition obj_delete (ps : list (string * player)) (id : string) :=
  filter (fun kp => negb (String.eqb (fst kp) id)) ps.

(** [Object.entries(this.players).find(([id, p]) => p.color === 'red')] *)
Definition find_red (ps : list (string * player)) : option (string * player) :=
  find (fun kp => color_eqb (color_of (snd kp)) red) ps.

(** [set.add(x)], [set.delete(x)] *)
Definition set_add (l : list string) (x : string) : list string :=
  if existsb (String.eqb x) l then l else l ++ [x].
Definition set_delete (l : list string) (x : string) : list string :=
  filter (fun y => negb (String.eqb y x)) l.

(** [for (let i = a; i < a + n; i++)] *)
Definition zrange (a : Z) (n : nat) : list Z :=
  map (fun k => a + Z.of_nat k) (seq 0 n).

(** The double loop [for row in 0..7, for col in 0..7]. *)
Definition squares : list (Z * Z) :=
  flat_map (fun r => map (fun c => (r, c)) (zrange 0 8)) (zrange 0 8).

(* ------------------------------------------------------------------ *)
(** ** Rule engine *)

(** [initializeBoard]: red on rows 0-2 and black on rows 5-7, on the
    squares with [(row + col) % 2 === 1]; every other cell stays [null]. *)
Definition initial_cell (row col : Z) : cell :=
  if (0 <=? row) && (row <? 3) && (Z.rem (row + col) 2 =? 1)
  then Some (mkPiece red false)
  else if (5 <=? row) && (row <? 8) && (Z.rem (row + col) 2 =? 1)
  then Some (mkPiece black false)
  else None.

Definition initializeBoard : board :=
  map (fun row => map (fun col => initial_cell row col) (zrange 0 8)) (zrange 0 8).

(** The diagonal directions of a piece. *)
Definition directions (p : piece) : list (Z * Z) :=
  if king p then [(-1, -1); (-1, 1); (1, -1); (1, 1)]
  else match pcolor p with
       | red => [(1, -1); (1, 1)]
       | black => [(-1, -1); (-1, 1)]
       end.

Record capture := mkCapture { cfrom : Z * Z; cto : Z * Z; ccaptured : Z * Z }.

Definition in_board (r c : Z) : bool :=
  (0 <=? r) && (r <? 8) && (0 <=? c) && (c <? 8).

Definition is_opponent (p : piece) (q : option piece) : bool :=
  match q with Some q => negb (color_eqb (pcolor q) (pcolor p)) | None => false end.

Definition is_empty (q : option piece) : bool :=
  match q with None => true | Some _ => false end.

(** [getPieceCaptues(row, col)] (sic).  Its callers only call it on a cell
    holding a piece: the loop of [getAvailableCaptures] tests the piece
    first, and [makeMove] calls it on the cell it has just moved a piece to
    (on an empty cell JS would throw on [piece.king]; the list is empty
    here). *)
Definition getPieceCaptues (b : board) (row col : Z) : list capture :=
  match cell_at b row col with
  | None => []
  | Some p =>
      flat_map (fun '(dRow, dCol) =>
        let captureRow := row + dRow in
        let captureCol := col + dCol in
        let landRow := row + 2 * dRow in
        let landCol := col + 2 * dCol in
        if in_board landRow landCol
           && is_opponent p (cell_at b captureRow captureCol)
           && is_empty (cell_at b landRow landCol)
        then [mkCapture (row, col) (landRow, landCol) (captureRow, captureCol)]
        else []) (directions p)
  end.

(** [getAvailableCaptures(color)] *)
Definition getAvailableCaptures (b : board) (c : color) : list capture :=
  flat_map (fun '(row, col) =>
    match cell_at b row col with
    | Some p => if color_eqb (pcolor p) c then getPieceCaptues b row col else []
    | None => []
    end) squares.

Inductive move_kind := Step | Jump.
Record move := mkMove { mfrom : Z * Z; mto : Z * Z; mkind : move_kind }.

(** [getValidMovesForPiece(row, col)]: for each direction, the step to an
    empty in-bounds cell, then the jump over an opponent piece. *)
Definition getValidMovesForPiece (b : board) (row col : Z) : list move :=
  match cell_at b row col with
  | None => []
  | Some p =>
      flat_map (fun '(dRow, dCol) =>
        let newRow := row + dRow in
        let newCol := col + dCol in
        let captureRow := row + 2 * dRow in
        let captureCol := col + 2 * dCol in
        (if in_board newRow newCol && is_empty (cell_at b newRow newCol)
         then [mkMove (row, col) (newRow, newCol) Step] else [])
        ++ (if in_board captureRow captureCol
               && is_opponent p (cell_at b newRow newCol)
               && is_empty (cell_at b captureRow captureCol)
            then [mkMove (row, col) (captureRow, captureCol) Jump] else []))
        (directions p)
  end.

(** [getValidMovesForPlayer(color)] *)
Definition getValidMovesForPlayer (b : board) (c : color) : list move :=
  flat_map (fun '(row, col) =>
    match cell_at b row col with
    | Some p => if color_eqb (pcolor p) c then getValidMovesForPiece b row col else []
    | None => []
    end) squares.

(** [countPieces(color)] *)
Definition countPieces (b : board) (c : color) : nat :=
  List.length (filter (fun '(row, col) =>
    match cell_at b row col with
    | Some p => color_eqb (pcolor p) c
    | None => false
    end) squares).

(* ------------------------------------------------------------------ *)
(** ** Move validation and execution *)

(** The [reason] strings of the rejections. *)
Definition r_not_your_turn := "Not your turn"%string.
Definition r_invalid_source := "Invalid source position"%string.
Definition r_destination := "Destination not empty"%string.
Definition r_dark := "Can only move to dark squares"%string.
Definition r_continue := "Must continue capturing with the same piece"%string.
Definition r_move_direction := "Invalid move direction"%string.
Definition r_must_capture := "Must capture when possible"%string.
Definition r_capture_direction := "Invalid capture direction"%string.
Definition r_no_piece := "No piece to capture"%string.
Definition r_distance := "Invalid move distance"%string.
Definition r_not_authorized := "Not authorized to select turn order"%string.
Definition r_invalid_choice := "Invalid choice"%string.

(** The object returned by [isValidMove]. *)
Inductive validation :=
| Invalid (reason : string)            (* { valid: false, reason } *)
| ValidStep                            (* { valid: true, type: 'move' } *)
| ValidJump (capturedRow capturedCol : Z). (* { valid: true, type: 'capture', ... } *)

(** [piece.color === 'red' ? 1 : -1] *)
Definition expectedDirection (p : piece) : Z :=
  match pcolor p with red => 1 | black => -1 end.

(** The continuation guard [this.mustCapture && this.capturingPiece &&
    (fromRow !== this.capturingPiece.row || fromCol !== this.capturingPiece.col)]. *)
Definition blocked_by_continuation (s : game) (fromRow fromCol : Z) : bool :=
  mustCapture s &&
  match capturingPiece s with
  | Some (r, c) => negb ((fromRow =? r) && (fromCol =? c))
  | None => false
  end.

(** [isValidMove(fromRow, fromCol, toRow, toCol, playerId)]; [None] is a
    thrown [TypeError]: [this.players[playerId]] is [undefined], or a row
    subscript is outside the board. *)
Definition isValidMove (s : game) (fromRow fromCol toRow toCol : Z) (playerId : string)
  : option validation :=
  match lookup_player playerId (players s) with
  | None => None
  | Some pl =>
  if negb (color_eqb (color_of pl) (currentPlayer s)) then Some (Invalid r_not_your_turn) else
  match get_cell (board_of s) fromRow fromCol with
  | None => None
  | Some (Obj piece) =>
    if negb (color_eqb (pcolor piece) (currentPlayer s)) then Some (Invalid r_invalid_source) else
    match get_cell (board_of s) toRow toCol with
    | None => None
    | Some Null =>
      if Z.rem (toRow + toCol) 2 =? 0 then Some (Invalid r_dark) else
      let rowDiff := toRow - fromRow in
      let colDiff := Z.abs (toCol - fromCol) in
      if blocked_by_continuation s fromRow fromCol then Some (Invalid r_continue) else
      if (Z.abs rowDiff =? 1) && (colDiff =? 1) then
        if negb (king piece) && negb (rowDiff =? expectedDirection piece)
        then Some (Invalid r_move_direction) else
        match getAvailableCaptures (board_of s) (currentPlayer s) with
        | [] => Some ValidStep
        | _ :: _ => Some (Invalid r_must_capture)
        end
      else if (Z.abs rowDiff =? 2) && (colDiff =? 2) then
        if negb (king piece) && negb (Z.sgn rowDiff =? expectedDirection piece)
        then Some (Invalid r_capture_direction) else
        let middleRow := fromRow + Z.sgn rowDiff in
        let middleCol := fromCol + Z.sgn (toCol - fromCol) in
        match get_cell (board_of s) middleRow middleCol with
        | None => None
        | Some (Obj middlePiece) =>
          if color_eqb (pcolor middlePiece) (currentPlayer s)
          then Some (Invalid r_no_piece)
          else Some (ValidJump middleRow middleCol)
        | Some _ => Some (Invalid r_no_piece)
        end
      else Some (Invalid r_distance)
    | Some _ => Some (Invalid r_destination)
    end
  | Some _ => Some (Invalid r_invalid_source)
  end
  end.

(** [checkGameOver()] *)
Definition checkGameOver (s : game) : option color :=
  if (countPieces (board_of s) red =? 0)%nat then Some black
  else if (countPieces (board_of s) black =? 0)%nat then Some red
  else match getValidMovesForPlayer (board_of s) (currentPlayer s) with
       | [] => Some (other (currentPlayer s))
       | _ :: _ => None
       end.

(** [const winner = this.checkGameOver(); if (winner) { ... }] *)
Definition record_winner (s : game) : game :=
  match checkGameOver s with
  | Some w => set_winner (Some w) (set_gameState finished s)
  | None => s
  end.

(** The object returned by [makeMove]. *)
Inductive move_result :=
| MoveFail (reason : string)
| MoveOk (capturedPiece : option piece) (promoted continueCapturing : bool)
         (winner : option color) (gameState : gstate).

(** [!piece.king && ((red && toRow === 7) || (black && toRow === 0))] *)
Definition promotes (p : piece) (toRow : Z) : bool :=
  negb (king p) &&
  ((color_eqb (pcolor p) red && (toRow =? 7)) || (color_eqb (pcolor p) black && (toRow =? 0))).

(** The piece moves: [this.board[toRow][toCol] = { ...piece }] (a fresh
    copy) and the source cell is emptied; a capture empties the jumped cell
    and looks for further captures of the moved piece.  Returns the captured
    piece, [continueCapturing] and the state. *)
Definition move_piece (s : game) (fromRow fromCol toRow toCol : Z) (v : validation) (p : piece)
  : option piece * bool * game :=
  let b1 := set_cell (set_cell (board_of s) toRow toCol (Some p)) fromRow fromCol None in
  match v with
  | ValidJump cr cc =>
      let b2 := set_cell b1 cr cc None in
      match getPieceCaptues b2 toRow toCol with
      | [] => (cell_at b1 cr cc, false,
               set_capturingPiece None (set_mustCapture false (set_board b2 s)))
      | _ :: _ => (cell_at b1 cr cc, true,
               set_capturingPiece (Some (toRow, toCol)) (set_mustCapture true (set_board b2 s)))
      end
  | _ => (None, false, set_capturingPiece None (set_mustCapture false (set_board b1 s)))
  end.

(** [makeMove(fromRow, fromCol, toRow, toCol, playerId)] *)
Definition makeMove (fromRow fromCol toRow toCol : Z) (playerId : string) (s : game)
  : outcome move_result :=
  match isValidMove s fromRow fromCol toRow toCol playerId with
  | None => Throw s
  | Some (Invalid r) => Ret (MoveFail r) s
  | Some v =>
    match cell_at (board_of s) fromRow fromCol with
    | None => Throw s
    | Some piece =>
      let '(capturedPiece, continueCapturing, s1) :=
        move_piece s fromRow fromCol toRow toCol v piece in
      let promoted := promotes piece toRow in
      (* this.board[toRow][toCol].king = true; a continuation is dropped *)
      let s2 := if promoted
                then set_board (set_cell (board_of s1) toRow toCol
                                         (Some (mkPiece (pcolor piece) true))) s1
                else s1 in
      let s3 := if promoted && continueCapturing
                then set_capturingPiece None (set_mustCapture false s2) else s2 in
      let cont := continueCapturing && negb promoted in
      let s4 := if cont then s3 else set_currentPlayer (other (currentPlayer s3)) s3 in
      let s5 := record_winner s4 in
      Ret (MoveOk capturedPiece promoted cont (winner s5) (gameState s5)) s5
    end
  end.

(* ------------------------------------------------------------------ *)
(** ** Session commands *)

(** [new CheckersGame(roomCode)] *)
Definition newCheckersGame (code : string) : game :=
  mkGame code [] red waiting None initializeBoard false None [] None false.

(** [addPlayer(playerId, playerName)]; when the second player joins,
    [redPlayer[0]] throws if no player is red. *)
Definition addPlayer (playerId playerName : string) (s : game) : outcome bool :=
  if (2 <=? nkeys (players s))%nat then Ret false s else
  let c := if (nkeys (players s) =? 0)%nat then red else black in
  let s1 := set_players (obj_set (players s) playerId (mkPlayer playerName c)) s in
  if (nkeys (players s1) =? 2)%nat then
    let s2 := set_waiting true (set_gameState turn_selection s1) in
    match find_red (players s2) with
    | Some (id, _) => Ret true (set_turnOrderSelector (Some id) s2)
    | None => Throw s2
    end
  else Ret true s1.

(** [removePlayer(playerId)] *)
Definition removePlayer (playerId : string) (s : game) : outcome unit :=
  let s1 := set_newGameRequests (set_delete (newGameRequests s) playerId)
              (set_players (obj_delete (players s) playerId) s) in
  Ret tt (if (nkeys (players s1) =? 0)%nat then set_gameState finished s1 else s1).

Inductive turn_result :=
| TurnFail (reason : string)
| TurnOk (currentPlayer : color) (startingPlayerName : option string).

(** The shared tail of [selectTurnOrder] once the starting color is known. *)
Definition start_game (c : color) (s : game) : outcome turn_result :=
  let s1 := set_turnOrderSelector None (set_waiting false
              (set_gameState playing (set_currentPlayer c s))) in
  Ret (TurnOk c (option_map (fun kp => pname (snd kp))
                   (find (fun kp => color_eqb (color_of (snd kp)) c) (players s1)))) s1.

(** [selectTurnOrder(playerId, choice)]; [selectorPlayer.color] throws when
    the selector has left the room. *)
Definition selectTurnOrder (playerId choice : string) (s : game) : outcome turn_result :=
  if negb (match turnOrderSelector s with
           | Some id => String.eqb playerId id
           | None => false
           end) || negb (waitingForTurnOrderSelection s)
  then Ret (TurnFail r_not_authorized) s else
  if String.eqb choice "self" then
    match lookup_player playerId (players s) with
    | Some sel => start_game (color_of sel) s
    | None => Throw s
    end
  else if String.eqb choice "opponent" then
    match lookup_player playerId (players s) with
    | Some sel => start_game (other (color_of sel)) s
    | None => Throw s
    end
  else Ret (TurnFail r_invalid_choice) s.

(** [resetGame()] *)
Definition resetGame (s : game) : game :=
  let s1 := set_newGameRequests []
              (set_capturingPiece None (set_mustCapture false
                (set_board initializeBoard (set_winner None (set_currentPlayer red s))))) in
  if (nkeys (players s1) =? 2)%nat then
    set_turnOrderSelector
      (match find_red (players s1) with
       | Some (id, _) => Some id
       | None => option_map fst (hd_error (players s1))
       end)
      (set_waiting true (set_gameState turn_selection s1))
  else set_turnOrderSelector None (set_waiting false (set_gameState waiting s1)).

(** The object returned by [requestNewGame]. *)
Inductive newgame_result :=
| BothAgreed      (* { approved: true, bothAgreed: true } *)
| SinglePlayer    (* { approved: true, bothAgreed: false, reason: 'single_player' } *)
| WaitingForOther. (* { approved: false, waitingForOther: true } *)

(** [requestNewGame(playerId)] *)
Definition requestNewGame (playerId : string) (s : game) : outcome newgame_result :=
  let s1 := set_newGameRequests (set_add (newGameRequests s) playerId) s in
  let n := nkeys (players s1) in
  if (n =? 2)%nat && (List.length (newGameRequests s1) =? 2)%nat then Ret BothAgreed (resetGame s1)
  else if (n =? 1)%nat then Ret SinglePlayer (resetGame s1)
  else Ret WaitingForOther s1.

(** [cancelNewGameRequest(playerId)] *)
Definition cancelNewGameRequest (playerId : string) (s : game) : outcome unit :=
  Ret tt (set_newGameRequests (set_delete (newGameRequests s) playerId) s).

(** The commands a session receives, and the state each leaves, returned or
    thrown. *)
Inductive command :=
| AddPlayer (playerId playerName : string)
| RemovePlayer (playerId : string)
| MakeMove (fromRow fromCol toRow toCol : Z) (playerId : string)
| SelectTurnOrder (playerId choice : string)
| RequestNewGame (playerId : string)
| CancelNewGameRequest (playerId : string).

Definition state_after {A} (o : outcome A) : game :=
  match o with Ret _ s => s | Throw s => s end.

Definition exec (c : command) (s : game) : game :=
  match c with
  | AddPlayer id nm => state_after (addPlayer id nm s)
  | RemovePlayer id => state_after (removePlayer id s)
  | MakeMove fr fc tr tc id => state_after (makeMove fr fc tr tc id s)
  | SelectTurnOrder id ch => state_after (selectTurnOrder id ch s)
  | RequestNewGame id => state_after (requestNewGame id s)
  | CancelNewGameRequest id => state_after (cancelNewGameRequest id s)
  end.

Definition run (cs : list command) (s : game) : game := fold_left (fun s c => exec c s) cs s.

(* ------------------------------------------------------------------ *)
(** ** Invariants and board predicates *)

(** Every occupied cell is a dark square, [(row + col)] odd. *)
Definition dark_board (b : board) : Prop :=
  forall r c p, cell_at b r c = Some p -> Z.odd (r + c) = true.

(** The board is 8 rows of 8 cells. *)
Definition well_shaped (b : board) : Prop :=
  List.length b = 8%nat /\ forall rw, In rw b -> List.length rw = 8%nat.

(** [board[r][c]] exists inside its row. *)
Definition cell_exists (b : board) (r c : Z) : bool :=
  match js_index b r with
  | Some rw => (0 <=? c) && (c <? Z.of_nat (List.length rw))
  | None => false
  end.

Definition session_inv (s : game) : Prop :=
  dark_board (board_of s) /\ well_shaped (board_of s).

(** The sessions a fresh [CheckersGame] reaches under a command sequence. *)
Definition reachable (s : game) : Prop :=
  exists code cs, s = run cs (newCheckersGame code).

(* ------------------------------------------------------------------ *)
(** ** Decision procedures and concrete positions *)

Definition well_shapedb (b : board) : bool :=
  (List.length b =? 8)%nat && forallb (fun rw => (List.length rw =? 8)%nat) b.

Definition dark_boardb (b : board) : bool :=
  forallb (fun '(r, c) =>
    match cell_at b r c with Some _ => Z.odd (r + c) | None => true end) squares.

Fixpoint lookup_pos (l : list ((Z * Z) * piece)) (r c : Z) : cell :=
  match l with
  | [] => None
  | ((r', c'), p) :: t => if (r =? r') && (c =? c') then Some p else lookup_pos t r c
  end.

(** An 8x8 board holding the listed pieces, every other cell [null]. *)
Definition place (l : list ((Z * Z) * piece)) : board :=
  map (fun r => map (fun c => lookup_pos l r c) (zrange 0 8)) (zrange 0 8).

Definition red_man := mkPiece red false.
Definition black_man := mkPiece black false.
Definition red_king := mkPiece red true.

(** Two connections: "A" joined first (red), "B" second (black). *)
Definition two_players : list (string * player) :=
  [("A"%string, mkPlayer "Ann" red); ("B"%string, mkPlayer "Bob" black)].

(** A session in the playing phase on board [b] with [c] to move. *)
Definition session_with (b : board) (c : color) : game :=
  mkGame "ROOM01" two_players c playing None b false None [] None false.

(** Red to move; red (2,1) can jump (3,2) and then (5,4); red (2,5) can
    jump (3,6). *)
Definition jump_board : board :=
  place [((2, 1), red_man); ((3, 2), black_man); ((5, 4), black_man);
         ((2, 5), red_man); ((3, 6), black_man)].

Definition jump_session : game := session_with jump_board red.

(** After red's first jump (2,1)x(3,2) to (4,3). *)
Definition jump_session_after : game := state_after (makeMove 2 1 4 3 "A" jump_session).

(** Red to move; the red man on (5,2) can jump (6,3) and land on row 7,
    where a king could jump (6,5). *)
Definition promo_board : board :=
  place [((5, 2), red_man); ((6, 3), black_man); ((6, 5), black_man)].

Definition promo_session : game := session_with promo_board red.

Definition promo_session_after : game := state_after (makeMove 5 2 7 4 "A" promo_session).

(** Red king on (5,5), black man on (4,4), every other cell empty, red to
    move; (5,5), (4,4) and (3,3) are light squares. *)
Definition scenario_board : board := place [((5, 5), red_king); ((4, 4), black_man)].

Definition scenario_session : game := session_with scenario_board red.

(** The same position one column to the left, on dark squares. *)
Definition dark_scenario_board : board := place [((5, 4), red_king); ((4, 3), black_man)].

Definition dark_scenario_session : game := session_with dark_scenario_board red.

(** The starting position, red to move. *)
Definition start_session : game := session_with initializeBoard red.

(** A room where connections "A" and "B" ask for a new game before joining,
    then join, red picks its own color and moves (2,1) to (3,0). *)
Definition early_requests_session : game :=
  run [RequestNewGame "A"; RequestNewGame "B"; AddPlayer "A" "Ann"; AddPlayer "B" "Bob";
       SelectTurnOrder "A" "self"; MakeMove 2 1 3 0 "A"] (newCheckersGame "ROOM01").

(** "A" (red) and "B" (black) have joined; "A" chooses the turn order. *)
Definition seated_session : game :=
  run [AddPlayer "A" "Ann"; AddPlayer "B" "Bob"] (newCheckersGame "ROOM01").

(** Red to move; red (2,1) can jump (3,2), red (2,5) can only step. *)
Definition hint_board : board :=
  place [((2, 1), red_man); ((3, 2), black_man); ((2, 5), red_man)].

Definition hint_session : game := session_with hint_board red.

(** [x && x.color === col]: the cell holds a piece of color [col]. *)
Definition owned (x : cell) (col : color) : bool :=
  match x with Some p => color_eqb (pcolor p) col | None => false end.

(** No square is listed twice. *)
Fixpoint nodup_sq (l : list (Z * Z)) : bool :=
  match l with
  | [] => true
  | x :: t => negb (existsb (fun y => (fst y =? fst x) && (snd y =? snd x)) t) && nodup_sq t
  end.

(** [mustCapture] is set exactly when a continuation piece is recorded. *)
Definition flags_consistent (s : game) : Prop :=
  mustCapture s = match capturingPiece s with Some _ => true | None => false end.

(** The room's bookkeeping: at most two players, under distinct ids, and a
    duplicate-free pending set. *)
Definition room_ok (s : game) : Prop :=
  (nkeys (players s) <= 2)%nat /\ NoDup (map fst (players s)) /\ NoDup (newGameRequests s).

(** [move.type === 'capture'] *)
Definition is_jump (m : move) : bool :=
  match mkind m with Jump => true | Step => false end.

(** The [get-possible-moves] handler of the server for the connection
    [socketId] of the room whose game is [s]: the destinations it sends
    for the piece on [(row, col)]; [None] is a thrown [TypeError]
    ([game.board[row]] is [undefined]). *)
Definition get_possible_moves (s : game) (socketId : string) (row col : Z) : option (list (Z * Z)) :=
  match get_cell (board_of s) row col with
  | None => None
  | Some (Obj piece) =>
    (* piece.color !== game.players[socket.id]?.color *)
    if negb (match lookup_player socketId (players s) with
             | Some pl => color_eqb (pcolor piece) (color_of pl)
             | None => false
             end) then Some [] else
    if blocked_by_continuation s row col then Some [] else
    let moves := getValidMovesForPiece (board_of s) row col in
    let captures := filter is_jump moves in
    let finalMoves := match captures with [] => moves | _ :: _ => captures end in
    Some (map mto finalMoves)
  | Some _ => Some []
  end.

(** The rejection codes the specification lists, and the reason string of
    the program each one stands for. *)
Inductive reason_code :=
| NotYourTurn | InvalidSource | DestinationOccupied | WrongSquareColor
| MustContinueCapture | MustCapture | NoPieceToCapture | InvalidDistance
| InvalidTurnOrderChoice | NotAuthorized.

Definition code_of_reason (r : string) : option reason_code :=
  if String.eqb r r_not_your_turn then Some NotYourTurn
  else if String.eqb r r_invalid_source then Some InvalidSource
  else if String.eqb r r_destination then Some DestinationOccupied
  else if String.eqb r r_dark then Some WrongSquareColor
  else if String.eqb r r_continue then Some MustContinueCapture
  else if String.eqb r r_must_capture then Some MustCapture
  else if String.eqb r r_no_piece then Some NoPieceToCapture
  else if String.eqb r r_distance then Some InvalidDistance
  else if String.eqb r r_invalid_choice then Some InvalidTurnOrderChoice
  else if String.eqb r r_not_authorized then Some NotAuthorized
  else None.

(** The eight codes of move rejections. *)
Definition move_reason_codes : list reason_code :=
  [NotYourTurn; InvalidSource; DestinationOccupied; WrongSquareColor;
   MustContinueCapture; MustCapture; NoPieceToCapture; InvalidDistance].

(* ------------------------------------------------------------------ *)
(** ** Lemmas on the JavaScript containers *)

Lemma nth_error_upd_nth {A} (l : list A) n x m :
  nth_error (upd_nth l n x) m =
  if Nat.eqb n m && Nat.ltb n (List.length l) then Some x else nth_error l m.
Proof.
  revert n m; induction l as [|h t IH]; intros n m.
  - simpl; rewrite andb_false_r; destruct m; reflexivity.
  - destruct n as [|n], m as [|m]; simpl; try reflexivity.
    + rewrite IH; reflexivity.
Qed.

Lemma length_upd_nth {A} (l : list A) n x : List.length (upd_nth l n x) = List.length l.
Proof.
  revert n; induction l; intros [|n]; simpl; auto.
Qed.

Lemma In_upd_nth {A} (l : list A) n x y : In y (upd_nth l n x) -> In y l \/ y = x.
Proof.
  revert n; induction l as [|h t IH]; intros [|n]; simpl; intros H; try tauto.
  - destruct H; [right; auto | left; right; auto].
  - destruct H as [H|H]; [left; left; auto|].
    destruct (IH n H); [left; right|right]; auto.
Qed.

Lemma js_index_update {A} (l : list A) i x j :
  js_index (js_update l i x) j =
  if (i =? j) && (0 <=? i) && (i <? Z.of_nat (List.length l)) then Some x else js_index l j.
Proof.
  unfold js_index, js_update.
  destruct (0 <=? i) eqn:Hi; destruct (0 <=? j) eqn:Hj;
    rewrite ?Z.leb_le, ?Z.leb_gt in *.
  - rewrite nth_error_upd_nth.
    destruct (Z.eqb_spec i j) as [->|Hne]; simpl.
    + rewrite Nat.eqb_refl; simpl.
      destruct (Nat.ltb_spec (Z.to_nat j) (List.length l));
        destruct (Z.ltb_spec j (Z.of_nat (List.length l))); try reflexivity; lia.
    + destruct (Nat.eqb_spec (Z.to_nat i) (Z.to_nat j)); simpl; [lia|reflexivity].
  - destruct (Z.eqb_spec i j); [lia|reflexivity].
  - destruct (Z.eqb_spec i j); [lia|reflexivity].
  - destruct (Z.eqb_spec i j); reflexivity.
Qed.

Lemma length_js_update {A} (l : list A) i x : List.length (js_update l i x) = List.length l.
Proof. unfold js_update; destruct (0 <=? i); auto using length_upd_nth. Qed.

Lemma In_js_update {A} (l : list A) i x y : In y (js_update l i x) -> In y l \/ y = x.
Proof. unfold js_update; destruct (0 <=? i); eauto using In_upd_nth. Qed.

Lemma js_index_Some_range {A} (l : list A) i x :
  js_index l i = Some x -> 0 <= i < Z.of_nat (List.length l).
Proof.
  unfold js_index; destruct (Z.leb_spec 0 i) as [Hle|Hgt]; [|discriminate].
  intros Hx. assert (Z.to_nat i < List.length l)%nat by (apply nth_error_Some; congruence).
  lia.
Qed.

Lemma js_index_in_range {A} (l : list A) i :
  0 <= i < Z.of_nat (List.length l) -> exists x, js_index l i = Some x /\ In x l.
Proof.
  intros Hr. unfold js_index. destruct (Z.leb_spec 0 i); [|lia].
  destruct (nth_error l (Z.to_nat i)) eqn:E.
  - exists a; split; auto. eapply nth_error_In; eauto.
  - apply nth_error_None in E; lia.
Qed.

Lemma cell_at_set_cell b r c v r' c' :
  cell_at (set_cell b r c v) r' c' =
  if (r =? r') && (c =? c') && cell_exists b r c then v else cell_at b r' c'.
Proof.
  unfold cell_at, set_cell, cell_exists.
  destruct (js_index b r) as [rw|] eqn:Hr.
  - pose proof (js_index_Some_range _ _ _ Hr) as Rr.
    rewrite js_index_update.
    destruct (Z.eqb_spec r r') as [<-|Hne]; simpl.
    + replace ((0 <=? r) && (r <? Z.of_nat (List.length b))) with true
        by (symmetry; apply andb_true_iff; split; [apply Z.leb_le|apply Z.ltb_lt]; lia).
      rewrite Hr, js_index_update.
      destruct (Z.eqb_spec c c') as [<-|]; simpl.
      * destruct ((0 <=? c) && (c <? Z.of_nat (List.length rw))); [destruct v|]; reflexivity.
      * reflexivity.
    + reflexivity.
  - rewrite andb_false_r; reflexivity.
Qed.

Lemma well_shaped_set_cell b r c v : well_shaped b -> well_shaped (set_cell b r c v).
Proof.
  unfold set_cell; intros [Hl Hrows].
  destruct (js_index b r) as [rw|] eqn:Hr; [|split; auto].
  split; [rewrite length_js_update; auto|].
  intros rw' Hin. apply In_js_update in Hin as [Hin| ->]; auto.
  rewrite length_js_update. apply Hrows.
  unfold js_index in Hr; destruct (0 <=? r); [eapply nth_error_In; eauto|discriminate].
Qed.

Lemma dark_board_set_cell b r c v :
  dark_board b -> (v = None \/ Z.odd (r + c) = true) -> dark_board (set_cell b r c v).
Proof.
  intros Hd Hv r' c' p. rewrite cell_at_set_cell.
  destruct ((r =? r') && (c =? c') && cell_exists b r c) eqn:E.
  - intros ->. destruct Hv as [Hv|Hv]; [discriminate|].
    apply andb_true_iff in E as [E _]; apply andb_true_iff in E as [E1 E2].
    apply Z.eqb_eq in E1, E2; subst; auto.
  - apply Hd.
Qed.

(** On a well-shaped board every in-range cell exists and reads as [null]
    or its piece. *)
Lemma get_cell_in_range b r c :
  well_shaped b -> 0 <= r < 8 -> 0 <= c < 8 ->
  get_cell b r c = Some (match cell_at b r c with Some p => Obj p | None => Null end).
Proof.
  intros [Hl Hrows] Hr Hc. unfold get_cell, cell_at.
  destruct (js_index_in_range b r) as [rw [E Hin]]; [rewrite Hl; lia|].
  rewrite E. pose proof (Hrows rw Hin) as Lrw.
  destruct (js_index_in_range rw c) as [x [E' _]]; [rewrite Lrw; lia|].
  rewrite E'. destruct x; reflexivity.
Qed.

Lemma cell_at_out_of_range b r c :
  well_shaped b -> ~ (0 <= r < 8 /\ 0 <= c < 8) -> cell_at b r c = None.
Proof.
  intros [Hl Hrows] Hout. unfold cell_at.
  destruct (js_index b r) as [rw|] eqn:E; [|reflexivity].
  pose proof (js_index_Some_range _ _ _ E) as R.
  destruct (js_index rw c) as [[p|]|] eqn:E'; try reflexivity.
  pose proof (js_index_Some_range _ _ _ E') as R'.
  assert (Hin : In rw b) by (unfold js_index in E; destruct (0 <=? r);
                              [eapply nth_error_In; eauto|discriminate]).
  rewrite (Hrows rw Hin) in R'. rewrite Hl in R. lia.
Qed.

Lemma cell_exists_in_range b r c :
  well_shaped b -> 0 <= r < 8 -> 0 <= c < 8 -> cell_exists b r c = true.
Proof.
  intros [Hl Hrows] Hr Hc. unfold cell_exists.
  destruct (js_index_in_range b r) as [rw [E Hin]]; [rewrite Hl; lia|].
  rewrite E, (Hrows rw Hin). apply andb_true_iff; split; [apply Z.leb_le|apply Z.ltb_lt]; lia.
Qed.

Lemma color_eqb_refl c : color_eqb c c = true.
Proof. destruct c; reflexivity. Qed.

Lemma color_eqb_eq a b : color_eqb a b = true <-> a = b.
Proof. destruct a, b; simpl; split; congruence. Qed.

Lemma rem2_eqb_odd x : (Z.rem x 2 =? 0) = negb (Z.odd x).
Proof. rewrite Zodd_rem. destruct (Z.rem x 2 =? 0); reflexivity. Qed.

(* ------------------------------------------------------------------ *)
(** ** Lemmas on the rule engine *)

Lemma in_zrange a n x : In x (zrange a n) -> a <= x < a + Z.of_nat n.
Proof.
  unfold zrange; rewrite in_map_iff; intros [k [<- Hk]].
  apply in_seq in Hk; lia.
Qed.

Lemma in_squares r c : In (r, c) squares -> 0 <= r < 8 /\ 0 <= c < 8.
Proof.
  unfold squares; rewrite in_flat_map; intros [r' [Hr Hin]].
  apply in_map_iff in Hin as [c' [E Hc]]; inversion E; subst.
  apply in_zrange in Hr, Hc; simpl in *; lia.
Qed.

Lemma get_cell_Obj b r c p : get_cell b r c = Some (Obj p) -> cell_at b r c = Some p.
Proof.
  unfold get_cell, cell_at; destruct (js_index b r); [|discriminate].
  destruct (js_index l c) as [[q|]|]; congruence.
Qed.

Lemma get_cell_Null b r c : get_cell b r c = Some Null -> cell_at b r c = None.
Proof.
  unfold get_cell, cell_at; destruct (js_index b r); [|discriminate].
  destruct (js_index l c) as [[q|]|]; congruence.
Qed.

Lemma in_getPieceCaptues b r c k :
  In k (getPieceCaptues b r c) ->
  exists p dr dc,
    cell_at b r c = Some p /\ In (dr, dc) (directions p) /\
    k = mkCapture (r, c) (r + 2 * dr, c + 2 * dc) (r + dr, c + dc) /\
    in_board (r + 2 * dr) (c + 2 * dc) = true /\
    is_opponent p (cell_at b (r + dr) (c + dc)) = true /\
    is_empty (cell_at b (r + 2 * dr) (c + 2 * dc)) = true.
Proof.
  unfold getPieceCaptues. destruct (cell_at b r c) as [p|] eqn:Hp; [|intros []].
  rewrite in_flat_map. intros [[dr dc] [Hd Hin]].
  destruct (in_board (r + 2 * dr) (c + 2 * dc)) eqn:E1; [|destruct Hin].
  destruct (is_opponent p (cell_at b (r + dr) (c + dc))) eqn:E2; [|destruct Hin].
  destruct (is_empty (cell_at b (r + 2 * dr) (c + 2 * dc))) eqn:E3; [|destruct Hin].
  destruct Hin as [<-|[]]. exists p, dr, dc; repeat split; auto.
Qed.

Lemma in_getAvailableCaptures b col k :
  In k (getAvailableCaptures b col) ->
  exists r c p, 0 <= r < 8 /\ 0 <= c < 8 /\ cell_at b r c = Some p /\ pcolor p = col /\
                In k (getPieceCaptues b r c).
Proof.
  unfold getAvailableCaptures; rewrite in_flat_map. intros [[r c] [Hsq Hin]].
  apply in_squares in Hsq.
  destruct (cell_at b r c) as [p|] eqn:Hp; [|destruct Hin].
  destruct (color_eqb (pcolor p) col) eqn:Hc; [|destruct Hin].
  apply color_eqb_eq in Hc. exists r, c, p; repeat split; auto; lia.
Qed.

Lemma odd_shift x y m : y = x + 2 * m -> Z.odd y = Z.odd x.
Proof. intros ->; apply Z.odd_add_mul_2. Qed.

(** The checks of [isValidMove] that precede the continuation guard pass:
    the player exists and is to move, the source holds one of their pieces,
    the destination is an empty dark square. *)
Section Validation.
Variables (s : game) (fromRow fromCol toRow toCol : Z) (playerId : string).
Variables (pl : player) (p : piece).
Hypothesis Hpl : lookup_player playerId (players s) = Some pl.
Hypothesis Hturn : color_of pl = currentPlayer s.
Hypothesis Hfrom : get_cell (board_of s) fromRow fromCol = Some (Obj p).
Hypothesis Hown : pcolor p = currentPlayer s.
Hypothesis Hto : get_cell (board_of s) toRow toCol = Some Null.
Hypothesis Hdark : Z.odd (toRow + toCol) = true.

Ltac open_prefix :=
  unfold isValidMove; rewrite Hpl, Hturn, color_eqb_refl; simpl;
  rewrite Hfrom, Hown, color_eqb_refl; simpl;
  rewrite Hto, rem2_eqb_odd, Hdark; simpl.

Lemma isValidMove_continue :
  blocked_by_continuation s fromRow fromCol = true ->
  isValidMove s fromRow fromCol toRow toCol playerId = Some (Invalid r_continue).
Proof. intros Hb; open_prefix; rewrite Hb; reflexivity. Qed.

Lemma isValidMove_must_capture :
  blocked_by_continuation s fromRow fromCol = false ->
  Z.abs (toRow - fromRow) = 1 -> Z.abs (toCol - fromCol) = 1 ->
  (king p = true \/ toRow - fromRow = expectedDirection p) ->
  getAvailableCaptures (board_of s) (currentPlayer s) <> [] ->
  isValidMove s fromRow fromCol toRow toCol playerId = Some (Invalid r_must_capture).
Proof.
  intros Hb Hr Hc Hdir Hcap; open_prefix; rewrite Hb, Hr, Hc; simpl.
  replace (negb (king p) && negb (toRow - fromRow =? expectedDirection p)) with false
    by (destruct Hdir as [->| ->]; [reflexivity|rewrite Z.eqb_refl, andb_false_r; reflexivity]).
  destruct (getAvailableCaptures (board_of s) (currentPlayer s)); [congruence|reflexivity].
Qed.

Lemma isValidMove_jump m :
  blocked_by_continuation s fromRow fromCol = false ->
  Z.abs (toRow - fromRow) = 2 -> Z.abs (toCol - fromCol) = 2 ->
  (king p = true \/ Z.sgn (toRow - fromRow) = expectedDirection p) ->
  get_cell (board_of s) (fromRow + Z.sgn (toRow - fromRow)) (fromCol + Z.sgn (toCol - fromCol))
    = Some (Obj m) ->
  pcolor m <> currentPlayer s ->
  isValidMove s fromRow fromCol toRow toCol playerId
    = Some (ValidJump (fromRow + Z.sgn (toRow - fromRow)) (fromCol + Z.sgn (toCol - fromCol))).
Proof.
  intros Hb Hr Hc Hdir Hm Hmc; open_prefix; rewrite Hb, Hr, Hc; simpl.
  replace (negb (king p) && negb (Z.sgn (toRow - fromRow) =? expectedDirection p)) with false
    by (destruct Hdir as [->| ->]; [reflexivity|rewrite Z.eqb_refl, andb_false_r; reflexivity]).
  rewrite Hm. destruct (color_eqb (pcolor m) (currentPlayer s)) eqn:E; [|reflexivity].
  apply color_eqb_eq in E; contradiction.
Qed.
End Validation.

Lemma in_board_spec r c : in_board r c = true <-> 0 <= r < 8 /\ 0 <= c < 8.
Proof.
  unfold in_board. rewrite !andb_true_iff, !Z.leb_le, !Z.ltb_lt. tauto.
Qed.

Lemma directions_unit p dr dc :
  In (dr, dc) (directions p) ->
  (dr = 1 \/ dr = -1) /\ (dc = 1 \/ dc = -1) /\ (king p = false -> dr = expectedDirection p).
Proof.
  unfold directions, expectedDirection.
  destruct (king p), (pcolor p); simpl; intros H;
    repeat destruct H as [H|H]; inversion H; subst; intuition congruence.
Qed.

Lemma sgn_double d : (d = 1 \/ d = -1) -> forall x, Z.sgn (x + 2 * d - x) = d.
Proof. intros [-> | ->] x; [replace (x + 2 * 1 - x) with 2 by ring|replace (x + 2 * -1 - x) with (-2) by ring]; reflexivity. Qed.

(** A validated move is carried out: [makeMove] returns a success. *)
Lemma makeMove_valid_ok s fr fc tr tc pid v p :
  isValidMove s fr fc tr tc pid = Some v -> (forall r, v <> Invalid r) ->
  cell_at (board_of s) fr fc = Some p ->
  exists cp pr cont w gs s', makeMove fr fc tr tc pid s = Ret (MoveOk cp pr cont w gs) s'.
Proof.
  intros Hv Hnot Hp. unfold makeMove. rewrite Hv.
  destruct v as [r| |cr cc]; [exfalso; apply (Hnot r); reflexivity| |];
    rewrite Hp; destruct (move_piece _ _ _ _ _ _ _) as [[? ?] ?]; eauto 10.
Qed.

(** Every capture listed by [getAvailableCaptures] for the player to move
    passes [isValidMove] as a jump, unless a continuation binds another
    piece. *)
Lemma available_capture_valid s pid pl k :
  session_inv s ->
  lookup_player pid (players s) = Some pl -> color_of pl = currentPlayer s ->
  In k (getAvailableCaptures (board_of s) (currentPlayer s)) ->
  blocked_by_continuation s (fst (cfrom k)) (snd (cfrom k)) = false ->
  exists p, cell_at (board_of s) (fst (cfrom k)) (snd (cfrom k)) = Some p /\
    isValidMove s (fst (cfrom k)) (snd (cfrom k)) (fst (cto k)) (snd (cto k)) pid
      = Some (ValidJump (fst (ccaptured k)) (snd (ccaptured k))).
Proof.
  intros [Hdark Hshape] Hpl Hturn Hin Hb.
  apply in_getAvailableCaptures in Hin as [r0 [c0 [p [Hr [Hc [Hp [Hcol Hin]]]]]]].
  apply in_getPieceCaptues in Hin
    as [p' [dr [dc [Hp' [Hd [-> [Hland [Hopp Hempty]]]]]]]].
  rewrite Hp in Hp'; inversion Hp'; subst p'. cbn [fst snd cfrom cto ccaptured] in *.
  destruct (directions_unit _ _ _ Hd) as [Ur [Uc Udir]].
  apply in_board_spec in Hland.
  destruct (cell_at (board_of s) (r0 + dr) (c0 + dc)) as [m|] eqn:Hm; [|discriminate].
  simpl in Hopp. apply negb_true_iff in Hopp.
  exists p; split; [exact Hp|].
  pose proof (sgn_double dr Ur r0) as Sr. pose proof (sgn_double dc Uc c0) as Sc.
  assert (Hmid : 0 <= r0 + dr < 8 /\ 0 <= c0 + dc < 8) by lia.
  rewrite <- Sr at 2. rewrite <- Sc at 2.
  eapply isValidMove_jump with (pl := pl) (p := p) (m := m); auto.
  - rewrite get_cell_in_range, Hp by (auto; lia). reflexivity.
  - rewrite get_cell_in_range by (auto; lia).
    destruct (cell_at (board_of s) (r0 + 2 * dr) (c0 + 2 * dc)); [discriminate|reflexivity].
  - erewrite odd_shift; [apply (Hdark r0 c0 p Hp)|].
    instantiate (1 := dr + dc); ring.
  - lia.
  - lia.
  - destruct (king p) eqn:K; [left; reflexivity|right]. rewrite Sr; auto.
  - rewrite Sr, Sc, get_cell_in_range, Hm by (auto; lia). reflexivity.
  - intros E. rewrite <- Hcol in E. rewrite E, color_eqb_refl in Hopp. discriminate.
Qed.

Lemma in_zrange_0_8 x : 0 <= x < 8 -> In x (zrange 0 8).
Proof.
  intros H. assert (x = 0 \/ x = 1 \/ x = 2 \/ x = 3 \/ x = 4 \/ x = 5 \/ x = 6 \/ x = 7)
    as E by lia.
  simpl; repeat destruct E as [-> | E]; subst; simpl; tauto.
Qed.

Lemma in_squares_iff r c : In (r, c) squares <-> 0 <= r < 8 /\ 0 <= c < 8.
Proof.
  split; [apply in_squares|]. intros [Hr Hc].
  unfold squares; apply in_flat_map; exists r; split; [apply in_zrange_0_8; auto|].
  apply in_map_iff; exists c; split; [reflexivity|apply in_zrange_0_8; auto].
Qed.

Lemma well_shapedb_spec b : well_shapedb b = true -> well_shaped b.
Proof.
  unfold well_shapedb; rewrite andb_true_iff, forallb_forall; intros [H1 H2].
  split; [apply Nat.eqb_eq; auto|]. intros rw Hin; apply Nat.eqb_eq, H2, Hin.
Qed.

Lemma dark_boardb_spec b : well_shaped b -> dark_boardb b = true -> dark_board b.
Proof.
  unfold dark_boardb; rewrite forallb_forall; intros Hs H r c p Hp.
  destruct (Z.le_gt_cases 0 r), (Z.lt_ge_cases r 8), (Z.le_gt_cases 0 c), (Z.lt_ge_cases c 8);
    try (rewrite cell_at_out_of_range in Hp by (auto; lia); discriminate).
  specialize (H (r, c) ltac:(apply in_squares_iff; lia)). cbv beta iota in H.
  rewrite Hp in H. exact H.
Qed.

Lemma session_inv_check s :
  well_shapedb (board_of s) = true -> dark_boardb (board_of s) = true -> session_inv s.
Proof.
  intros H1 H2. apply well_shapedb_spec in H1. split; auto using dark_boardb_spec.
Qed.

Lemma step_parity fr fc tr tc :
  Z.abs (tr - fr) = 1 -> Z.abs (tc - fc) = 1 -> Z.odd (fr + fc) = true -> Z.odd (tr + tc) = true.
Proof.
  intros Hr Hc Ho.
  assert (tr + tc - (fr + fc) = -2 \/ tr + tc - (fr + fc) = 0 \/ tr + tc - (fr + fc) = 2)
    as [E|[E|E]] by lia;
    [rewrite (odd_shift (fr + fc) (tr + tc) (-1)) | rewrite (odd_shift (fr + fc) (tr + tc) 0)
    | rewrite (odd_shift (fr + fc) (tr + tc) 1)]; auto; lia.
Qed.

(* ------------------------------------------------------------------ *)
(** ** C1: mandatory capture *)

(** C1 (amended).  Mandatory capture.  In a playing session whose board has
    its pieces on dark squares, when [getAvailableCaptures] of the color to
    move is non-empty and [pid] plays that color:
    - every single diagonal step of one of the player's pieces, to an empty
      cell of the board, in a direction the piece may move (forward unless
      it is a king), from a piece no pending continuation excludes, is
      rejected with "Must capture when possible" and changes nothing;
    - every capture [{from, to, captured}] of [getAvailableCaptures] whose
      [from] no pending continuation excludes succeeds. *)
Theorem mandatory_capture s pid pl :
  session_inv s -> gameState s = playing ->
  lookup_player pid (players s) = Some pl -> color_of pl = currentPlayer s ->
  getAvailableCaptures (board_of s) (currentPlayer s) <> [] ->
  (forall fr fc tr tc p,
     get_cell (board_of s) fr fc = Some (Obj p) -> pcolor p = currentPlayer s ->
     get_cell (board_of s) tr tc = Some Null ->
     Z.abs (tr - fr) = 1 -> Z.abs (tc - fc) = 1 ->
     (king p = true \/ tr - fr = expectedDirection p) ->
     blocked_by_continuation s fr fc = false ->
     makeMove fr fc tr tc pid s = Ret (MoveFail r_must_capture) s) /\
  (forall k, In k (getAvailableCaptures (board_of s) (currentPlayer s)) ->
     blocked_by_continuation s (fst (cfrom k)) (snd (cfrom k)) = false ->
     exists cp pr cont w gs s',
       makeMove (fst (cfrom k)) (snd (cfrom k)) (fst (cto k)) (snd (cto k)) pid s
         = Ret (MoveOk cp pr cont w gs) s').
Proof.
  intros Hinv _ Hpl Hturn Hcap. split.
  - intros fr fc tr tc p Hfrom Hown Hto Hr Hc Hdir Hb.
    unfold makeMove.
    rewrite (isValidMove_must_capture s fr fc tr tc pid pl p); auto.
    apply (step_parity fr fc tr tc Hr Hc).
    apply (proj1 Hinv fr fc p), get_cell_Obj, Hfrom.
  - intros k Hin Hb.
    destruct (available_capture_valid s pid pl k Hinv Hpl Hturn Hin Hb) as [p [Hp Hv]].
    eapply makeMove_valid_ok; eauto. discriminate.
Qed.

Lemma mandatory_capture_witness :
  (session_inv jump_session /\ gameState jump_session = playing /\
   lookup_player "A" (players jump_session) = Some (mkPlayer "Ann" red) /\
   color_of (mkPlayer "Ann" red) = currentPlayer jump_session /\
   getAvailableCaptures (board_of jump_session) (currentPlayer jump_session) <> []) /\
  makeMove 2 5 3 4 "A" jump_session = Ret (MoveFail r_must_capture) jump_session.
Proof.
  assert (Hinv : session_inv jump_session)
    by (apply session_inv_check; vm_compute; reflexivity).
  assert (Hcap : getAvailableCaptures (board_of jump_session) (currentPlayer jump_session) <> [])
    by (vm_compute; discriminate).
  split; [split; [exact Hinv|repeat split; auto]|].
  apply (proj1 (mandatory_capture jump_session "A" (mkPlayer "Ann" red) Hinv eq_refl eq_refl
                  eq_refl Hcap) 2 5 3 4 red_man); try reflexivity; vm_compute; auto.
Defined.

(** C1, as stated, fails: with a capture available, a backward single step
    of a man is rejected with "Invalid move direction", not "Must capture
    when possible"; and once a jump binds red to continue with the piece on
    (4,3), the capture (2,5)x(3,6) listed by [getAvailableCaptures] is
    rejected with "Must continue capturing with the same piece". *)
Lemma mandatory_capture_counterexample :
  gameState jump_session = playing /\
  getAvailableCaptures (board_of jump_session) red <> [] /\
  makeMove 2 5 1 4 "A" jump_session = Ret (MoveFail r_move_direction) jump_session /\
  gameState jump_session_after = playing /\ currentPlayer jump_session_after = red /\
  In (mkCapture (2, 5) (4, 7) (3, 6)) (getAvailableCaptures (board_of jump_session_after) red) /\
  makeMove 2 5 4 7 "A" jump_session_after = Ret (MoveFail r_continue) jump_session_after.
Proof.
  repeat split; try (vm_compute; reflexivity); try (vm_compute; discriminate).
  vm_compute; tauto.
Qed.

(* ------------------------------------------------------------------ *)
(** ** Lemmas on [makeMove] *)

Lemma isValidMove_accepted s fr fc tr tc pid v :
  isValidMove s fr fc tr tc pid = Some v -> (forall r, v <> Invalid r) ->
  (exists pl, lookup_player pid (players s) = Some pl /\ color_of pl = currentPlayer s) /\
  (exists p, get_cell (board_of s) fr fc = Some (Obj p) /\ pcolor p = currentPlayer s) /\
  get_cell (board_of s) tr tc = Some Null /\ Z.odd (tr + tc) = true /\
  blocked_by_continuation s fr fc = false /\
  match v with
  | ValidStep => Z.abs (tr - fr) = 1 /\ Z.abs (tc - fc) = 1
  | ValidJump cr cc =>
      Z.abs (tr - fr) = 2 /\ Z.abs (tc - fc) = 2 /\
      cr = fr + Z.sgn (tr - fr) /\ cc = fc + Z.sgn (tc - fc)
  | Invalid _ => False
  end.
Proof.
  intros Hv Hnot. unfold isValidMove in Hv.
  destruct (lookup_player pid (players s)) as [pl|] eqn:Hpl; [|discriminate].
  destruct (color_eqb (color_of pl) (currentPlayer s)) eqn:Hturn; simpl in Hv;
    [|inversion Hv; subst; exfalso; eapply Hnot; reflexivity].
  apply color_eqb_eq in Hturn.
  destruct (get_cell (board_of s) fr fc) as [[| |p]|] eqn:Hfrom;
    try (inversion Hv; subst; exfalso; eapply Hnot; reflexivity).
  destruct (color_eqb (pcolor p) (currentPlayer s)) eqn:Hown; simpl in Hv;
    [|inversion Hv; subst; exfalso; eapply Hnot; reflexivity].
  apply color_eqb_eq in Hown.
  destruct (get_cell (board_of s) tr tc) as [[| |q]|] eqn:Hto;
    try (inversion Hv; subst; exfalso; eapply Hnot; reflexivity).
  rewrite rem2_eqb_odd in Hv.
  destruct (Z.odd (tr + tc)) eqn:Hodd; simpl in Hv;
    [|inversion Hv; subst; exfalso; eapply Hnot; reflexivity].
  destruct (blocked_by_continuation s fr fc) eqn:Hb;
    [inversion Hv; subst; exfalso; eapply Hnot; reflexivity|].
  repeat split; eauto.
  destruct ((Z.abs (tr - fr) =? 1) && (Z.abs (tc - fc) =? 1)) eqn:H1.
  - apply andb_true_iff in H1 as [H1 H1']; apply Z.eqb_eq in H1, H1'.
    destruct (negb (king p) && negb (tr - fr =? expectedDirection p));
      [inversion Hv; subst; exfalso; eapply Hnot; reflexivity|].
    destruct (getAvailableCaptures (board_of s) (currentPlayer s));
      inversion Hv; subst; [split; auto|exfalso; eapply Hnot; reflexivity].
  - destruct ((Z.abs (tr - fr) =? 2) && (Z.abs (tc - fc) =? 2)) eqn:H2;
      [|inversion Hv; subst; exfalso; eapply Hnot; reflexivity].
    apply andb_true_iff in H2 as [H2 H2']; apply Z.eqb_eq in H2, H2'.
    destruct (negb (king p) && negb (Z.sgn (tr - fr) =? expectedDirection p));
      [inversion Hv; subst; exfalso; eapply Hnot; reflexivity|].
    destruct (get_cell (board_of s) (fr + Z.sgn (tr - fr)) (fc + Z.sgn (tc - fc)))
      as [[| |m]|]; try discriminate;
      try (inversion Hv; subst; exfalso; eapply Hnot; reflexivity).
    destruct (color_eqb (pcolor m) (currentPlayer s));
      inversion Hv; subst; [exfalso; eapply Hnot; reflexivity|].
    repeat split; auto.
Qed.

Lemma record_winner_board s : board_of (record_winner s) = board_of s.
Proof. unfold record_winner; destruct (checkGameOver s); reflexivity. Qed.
Lemma record_winner_current s : currentPlayer (record_winner s) = currentPlayer s.
Proof. unfold record_winner; destruct (checkGameOver s); reflexivity. Qed.
Lemma record_winner_mustCapture s : mustCapture (record_winner s) = mustCapture s.
Proof. unfold record_winner; destruct (checkGameOver s); reflexivity. Qed.
Lemma record_winner_capturingPiece s : capturingPiece (record_winner s) = capturingPiece s.
Proof. unfold record_winner; destruct (checkGameOver s); reflexivity. Qed.
Lemma record_winner_players s : players (record_winner s) = players s.
Proof. unfold record_winner; destruct (checkGameOver s); reflexivity. Qed.

Lemma checkGameOver_record_winner s : checkGameOver (record_winner s) = checkGameOver s.
Proof. unfold record_winner; destruct (checkGameOver s) eqn:E; exact E. Qed.

Lemma get_cell_Null_exists b r c : get_cell b r c = Some Null -> cell_exists b r c = true.
Proof.
  unfold get_cell, cell_exists. destruct (js_index b r) as [rw|]; [|discriminate].
  destruct (js_index rw c) as [[q|]|] eqn:E; try discriminate.
  intros _. apply js_index_Some_range in E.
  apply andb_true_iff; split; [apply Z.leb_le|apply Z.ltb_lt]; lia.
Qed.

Lemma js_index_set_cell_row b r c v r' :
  forall rw', js_index (set_cell b r c v) r' = Some rw' ->
  exists rw, js_index b r' = Some rw /\ List.length rw' = List.length rw.
Proof.
  intros rw'. unfold set_cell. destruct (js_index b r) as [rw|] eqn:Hr; [|eauto].
  rewrite js_index_update.
  destruct ((r =? r') && (0 <=? r) && (r <? Z.of_nat (List.length b))) eqn:E; [|eauto].
  intros H; inversion H; subst. apply andb_true_iff in E as [E _];
    apply andb_true_iff in E as [E _]; apply Z.eqb_eq in E; subst.
  exists rw; split; auto. apply length_js_update.
Qed.

Lemma cell_exists_set_cell b r c v r' c' :
  cell_exists (set_cell b r c v) r' c' = cell_exists b r' c'.
Proof.
  unfold cell_exists.
  destruct (js_index (set_cell b r c v) r') as [rw'|] eqn:E.
  - destruct (js_index_set_cell_row _ _ _ _ _ _ E) as [rw [-> L]]. rewrite L; reflexivity.
  - unfold set_cell in E. destruct (js_index b r) as [rw|] eqn:Hr; [|rewrite E; reflexivity].
    rewrite js_index_update in E.
    destruct ((r =? r') && (0 <=? r) && (r <? Z.of_nat (List.length b))); [discriminate|].
    rewrite E; reflexivity.
Qed.

(** Opens a successful [makeMove] into its validation, its moved piece and
    the steps of the move. *)
Ltac invert_makeMove H :=
  match type of H with
  | makeMove ?fr ?fc ?tr ?tc ?pid ?s = _ =>
    unfold makeMove in H;
    let Ev := fresh "Ev" in let Ep := fresh "Ep" in let Em := fresh "Emp" in
    destruct (isValidMove s fr fc tr tc pid) as [[?r| |?cr ?cc]|] eqn:Ev;
      try discriminate H;
    destruct (cell_at (board_of s) fr fc) as [?p|] eqn:Ep; try discriminate H;
    destruct (move_piece s fr fc tr tc _ _) as [[?cp ?cont] ?s1] eqn:Em;
    inversion H; subst; clear H
  end.

(* ------------------------------------------------------------------ *)
(** ** C2: multi-jump binding *)

(** C2 (amended).  Multi-jump binding.  When a successful capture leaves
    the moved piece, not promoted, with a further capture from its landing
    cell, [makeMove] keeps [currentPlayer], sets [mustCapture] and records
    the landing cell as [capturingPiece]; then every request by the same
    player from another cell holding one of their pieces, to an empty dark
    cell of the board, is rejected with "Must continue capturing with the
    same piece" and changes nothing.  A capture after which the landing
    cell has no further capture clears the obligation and passes the turn
    to the opponent. *)
Theorem multi_jump_binding :
  (forall s fr fc tr tc pid cp pr cont w gs s',
     makeMove fr fc tr tc pid s = Ret (MoveOk cp pr cont w gs) s' ->
     Z.abs (tr - fr) = 2 -> pr = false -> getPieceCaptues (board_of s') tr tc <> [] ->
     cont = true /\ currentPlayer s' = currentPlayer s /\ mustCapture s' = true /\
     capturingPiece s' = Some (tr, tc) /\
     (forall fr' fc' tr' tc' p', (fr', fc') <> (tr, tc) ->
        get_cell (board_of s') fr' fc' = Some (Obj p') -> pcolor p' = currentPlayer s' ->
        get_cell (board_of s') tr' tc' = Some Null -> Z.odd (tr' + tc') = true ->
        makeMove fr' fc' tr' tc' pid s' = Ret (MoveFail r_continue) s')) /\
  (forall s fr fc tr tc pid cp pr cont w gs s',
     makeMove fr fc tr tc pid s = Ret (MoveOk cp pr cont w gs) s' ->
     Z.abs (tr - fr) = 2 -> getPieceCaptues (board_of s') tr tc = [] ->
     cont = false /\ mustCapture s' = false /\ capturingPiece s' = None /\
     currentPlayer s' = other (currentPlayer s)).
Proof.
  split.
  - intros s fr fc tr tc pid cp pr cont w gs s' H Hj Hpr Hfurther.
    invert_makeMove H.
    + destruct (isValidMove_accepted _ _ _ _ _ _ _ Ev ltac:(discriminate))
        as [_ [_ [_ [_ [_ [Hr _]]]]]]; lia.
    + destruct (isValidMove_accepted _ _ _ _ _ _ _ Ev ltac:(discriminate))
        as [[pl [Hpl Hturn]] _].
      match goal with Hx : promotes _ _ = false |- _ => rewrite Hx in * end. cbv beta iota zeta in *.
      unfold move_piece in Emp.
      destruct (getPieceCaptues _ tr tc) as [|k ks] eqn:Eg; inversion Emp; subst.
      * rewrite record_winner_board in Hfurther. simpl in Hfurther. contradiction.
      * simpl. rewrite record_winner_current, record_winner_mustCapture,
          record_winner_capturingPiece. repeat split; auto.
        intros fr' fc' tr' tc' p' Hne Hfrom Hown Hto Hodd.
        unfold makeMove.
        rewrite (isValidMove_continue _ fr' fc' tr' tc' pid pl p'); auto.
        -- rewrite record_winner_players; exact Hpl.
        -- rewrite record_winner_current; exact Hturn.
        -- rewrite record_winner_current; exact Hown.
        -- unfold blocked_by_continuation.
           rewrite record_winner_mustCapture, record_winner_capturingPiece; simpl.
           destruct (Z.eqb_spec fr' tr), (Z.eqb_spec fc' tc); subst; auto.
  - intros s fr fc tr tc pid cp pr cont w gs s' H Hj Hnone.
    invert_makeMove H.
    + destruct (isValidMove_accepted _ _ _ _ _ _ _ Ev ltac:(discriminate))
        as [_ [_ [_ [_ [_ [Hr _]]]]]]; lia.
    + unfold move_piece in Emp. cbv beta iota zeta in *.
      destruct (promotes p tr) eqn:Hpr.
      * destruct (getPieceCaptues _ tr tc) as [|k ks] eqn:Eg; inversion Emp; subst;
          simpl; rewrite record_winner_current, record_winner_mustCapture,
          record_winner_capturingPiece; auto.
      * destruct (getPieceCaptues _ tr tc) as [|k ks] eqn:Eg; inversion Emp; subst.
        -- simpl; rewrite record_winner_current, record_winner_mustCapture,
             record_winner_capturingPiece; auto.
        -- rewrite record_winner_board in Hnone. simpl in Hnone. congruence.
Qed.

Lemma multi_jump_binding_witness :
  makeMove 2 1 4 3 "A" jump_session
    = Ret (MoveOk (Some black_man) false true None playing) jump_session_after /\
  getPieceCaptues (board_of jump_session_after) 4 3 <> [] /\
  makeMove 2 5 3 4 "A" jump_session_after = Ret (MoveFail r_continue) jump_session_after /\
  currentPlayer jump_session_after = red /\ capturingPiece jump_session_after = Some (4, 3).
Proof.
  assert (H : makeMove 2 1 4 3 "A" jump_session
                = Ret (MoveOk (Some black_man) false true None playing) jump_session_after)
    by (vm_compute; reflexivity).
  assert (G : getPieceCaptues (board_of jump_session_after) 4 3 <> [])
    by (vm_compute; discriminate).
  destruct (proj1 multi_jump_binding _ _ _ _ _ _ _ _ _ _ _ _ H eq_refl eq_refl G)
    as [_ [Hcur [_ [Hcp Hb]]]].
  split; [exact H|split; [exact G|split]].
  - apply (Hb 2 5 3 4 red_man); [congruence|vm_compute; reflexivity ..].
  - split; [exact Hcur|exact Hcp].
Defined.

(** C2, as stated, fails: while red is bound to continue with the piece on
    (4,3), a request from the empty cell (0,3) is rejected with "Invalid
    source position", not with "Must continue capturing with the same
    piece". *)
Lemma multi_jump_binding_counterexample :
  mustCapture jump_session_after = true /\ capturingPiece jump_session_after = Some (4, 3) /\
  makeMove 0 3 1 2 "A" jump_session_after = Ret (MoveFail r_invalid_source) jump_session_after.
Proof. vm_compute; repeat split. Qed.

(* ------------------------------------------------------------------ *)
(** ** C3: promotion ends the capture chain *)

Lemma promotes_true p tr :
  king p = false -> (pcolor p = red /\ tr = 7 \/ pcolor p = black /\ tr = 0) ->
  promotes p tr = true.
Proof.
  unfold promotes; intros Hk [[Hc ->]|[Hc ->]]; rewrite Hk, Hc; reflexivity.
Qed.

(** C3.  Promotion halts the capture chain: a capture that lands a man on
    the farthest row (row 7 for red, row 0 for black) makes it a king,
    reports [promoted], clears [mustCapture] and [capturingPiece], and
    passes the turn, whatever captures the new king would have. *)
Theorem promotion_ends_chain s fr fc tr tc pid cp pr cont w gs s' p :
  makeMove fr fc tr tc pid s = Ret (MoveOk cp pr cont w gs) s' ->
  Z.abs (tr - fr) = 2 -> cell_at (board_of s) fr fc = Some p -> king p = false ->
  (pcolor p = red /\ tr = 7 \/ pcolor p = black /\ tr = 0) ->
  cell_at (board_of s') tr tc = Some (mkPiece (pcolor p) true) /\ pr = true /\
  cont = false /\ mustCapture s' = false /\ capturingPiece s' = None /\
  currentPlayer s' = other (currentPlayer s).
Proof.
  intros H Hj Hp Hk Hrow. invert_makeMove H.
  - destruct (isValidMove_accepted _ _ _ _ _ _ _ Ev ltac:(discriminate))
      as [_ [_ [_ [_ [_ [Hr _]]]]]]; lia.
  - destruct (isValidMove_accepted _ _ _ _ _ _ _ Ev ltac:(discriminate))
      as [_ [_ [Hto _]]].
    inversion Hp; subst p0.
    rewrite (promotes_true p tr Hk Hrow). cbv beta iota zeta.
    unfold move_piece in Emp.
    destruct (getPieceCaptues _ tr tc) as [|k ks] eqn:Eg; inversion Emp; subst; simpl;
      rewrite record_winner_board, record_winner_current, record_winner_mustCapture,
        record_winner_capturingPiece; simpl;
      rewrite cell_at_set_cell, !Z.eqb_refl, !cell_exists_set_cell, (get_cell_Null_exists _ _ _ Hto);
      repeat split; reflexivity.
Qed.

Lemma promotion_ends_chain_witness :
  makeMove 5 2 7 4 "A" promo_session
    = Ret (MoveOk (Some black_man) true false None playing) promo_session_after /\
  getPieceCaptues (board_of promo_session_after) 7 4 <> [] /\
  cell_at (board_of promo_session_after) 7 4 = Some red_king /\
  mustCapture promo_session_after = false /\ capturingPiece promo_session_after = None /\
  currentPlayer promo_session_after = black.
Proof.
  assert (H : makeMove 5 2 7 4 "A" promo_session
                = Ret (MoveOk (Some black_man) true false None playing) promo_session_after)
    by (vm_compute; reflexivity).
  destruct (promotion_ends_chain _ _ _ _ _ _ _ _ _ _ _ _ red_man H eq_refl
              ltac:(vm_compute; reflexivity) eq_refl (or_introl (conj eq_refl eq_refl)))
    as [Hcell [_ [_ [Hmc [Hcp Hcur]]]]].
  split; [exact H|split; [vm_compute; discriminate|]].
  repeat split; assumption.
Defined.

(* ------------------------------------------------------------------ *)
(** ** C4: win detection *)

Lemma move_piece_fields s fr fc tr tc v p cp c s1 :
  move_piece s fr fc tr tc v p = (cp, c, s1) ->
  winner s1 = winner s /\ gameState s1 = gameState s /\
  currentPlayer s1 = currentPlayer s /\ players s1 = players s.
Proof.
  unfold move_piece; destruct v as [| |cr cc];
    [| |destruct (getPieceCaptues _ tr tc)]; intros H; inversion H; subst; auto.
Qed.

(** A successful [makeMove] ends with the game-over check on the state the
    move produced, whose [winner] and [gameState] are those before the move. *)
Lemma makeMove_ok_record s fr fc tr tc pid cp pr cont w gs s' :
  makeMove fr fc tr tc pid s = Ret (MoveOk cp pr cont w gs) s' ->
  exists s4, s' = record_winner s4 /\ winner s4 = winner s /\ gameState s4 = gameState s /\
             w = winner s' /\ gs = gameState s'.
Proof.
  intros H. invert_makeMove H;
    (eexists; split; [reflexivity|]);
    destruct (move_piece_fields _ _ _ _ _ _ _ _ _ _ Emp) as [Hw [Hg _]];
    destruct (promotes p tr), cont0; simpl; auto.
Qed.

Lemma record_winner_spec s :
  let s' := record_winner s in
  ((countPieces (board_of s) red = 0)%nat ->
     winner s' = Some black /\ gameState s' = finished) /\
  ((countPieces (board_of s) red <> 0)%nat -> (countPieces (board_of s) black = 0)%nat ->
     winner s' = Some red /\ gameState s' = finished) /\
  ((countPieces (board_of s) red <> 0)%nat -> (countPieces (board_of s) black <> 0)%nat ->
     getValidMovesForPlayer (board_of s) (currentPlayer s) = [] ->
     winner s' = Some (other (currentPlayer s)) /\ gameState s' = finished) /\
  ((countPieces (board_of s) red <> 0)%nat -> (countPieces (board_of s) black <> 0)%nat ->
     getValidMovesForPlayer (board_of s) (currentPlayer s) <> [] ->
     winner s' = winner s /\ gameState s' = gameState s).
Proof.
  unfold record_winner, checkGameOver.
  generalize (countPieces (board_of s) red) as nr.
  generalize (countPieces (board_of s) black) as nb.
  generalize (getValidMovesForPlayer (board_of s) (currentPlayer s)) as mv.
  intros mv nb nr.
  destruct (Nat.eqb_spec nr 0); destruct (Nat.eqb_spec nb 0); destruct mv;
    cbn [winner gameState set_winner set_gameState];
    repeat split; intros; try contradiction; try congruence; auto.
Qed.

(** C4.  Win detection: after every accepted move, if red has no piece
    left black wins, else if black has none red wins; otherwise, if the
    color now to move has no move at all (no step and no capture in
    [getValidMovesForPlayer]), the other color wins; in these cases the game
    is [finished] with that winner.  Otherwise [makeMove] sets no winner and
    leaves [winner] and [gameState] as they were; [winner] is a color or
    nothing, so there is no draw outcome. *)
Theorem win_detection s fr fc tr tc pid cp pr cont w gs s' :
  makeMove fr fc tr tc pid s = Ret (MoveOk cp pr cont w gs) s' ->
  w = winner s' /\ gs = gameState s' /\
  ((countPieces (board_of s') red = 0)%nat ->
     winner s' = Some black /\ gameState s' = finished) /\
  ((countPieces (board_of s') red <> 0)%nat -> (countPieces (board_of s') black = 0)%nat ->
     winner s' = Some red /\ gameState s' = finished) /\
  ((countPieces (board_of s') red <> 0)%nat -> (countPieces (board_of s') black <> 0)%nat ->
     getValidMovesForPlayer (board_of s') (currentPlayer s') = [] ->
     winner s' = Some (other (currentPlayer s')) /\ gameState s' = finished) /\
  ((countPieces (board_of s') red <> 0)%nat -> (countPieces (board_of s') black <> 0)%nat ->
     getValidMovesForPlayer (board_of s') (currentPlayer s') <> [] ->
     winner s' = winner s /\ gameState s' = gameState s).
Proof.
  intros H. destruct (makeMove_ok_record _ _ _ _ _ _ _ _ _ _ _ _ H)
    as [s4 [-> [Hw [Hg [-> ->]]]]].
  rewrite record_winner_board, record_winner_current.
  destruct (record_winner_spec s4) as [A [B [C D]]].
  rewrite <- Hw, <- Hg.
  revert A B C D.
  generalize (countPieces (board_of s4) red) as nr.
  generalize (countPieces (board_of s4) black) as nb.
  generalize (getValidMovesForPlayer (board_of s4) (currentPlayer s4)) as mv.
  intros mv nb nr A B C D.
  split; [reflexivity|]. split; [reflexivity|].
  split; [exact A|]. split; [exact B|]. split; [exact C|exact D].
Qed.

Lemma win_detection_witness :
  makeMove 2 1 4 3 "A" (session_with (place [((2,1), red_man); ((3,2), black_man)]) red)
  = Ret (MoveOk (Some black_man) false false (Some red) finished)
        (state_after (makeMove 2 1 4 3 "A"
           (session_with (place [((2,1), red_man); ((3,2), black_man)]) red))) /\
  winner (state_after (makeMove 2 1 4 3 "A"
           (session_with (place [((2,1), red_man); ((3,2), black_man)]) red))) = Some red /\
  gameState (state_after (makeMove 2 1 4 3 "A"
           (session_with (place [((2,1), red_man); ((3,2), black_man)]) red))) = finished.
Proof.
  assert (H : makeMove 2 1 4 3 "A" (session_with (place [((2,1), red_man); ((3,2), black_man)]) red)
    = Ret (MoveOk (Some black_man) false false (Some red) finished)
        (state_after (makeMove 2 1 4 3 "A"
           (session_with (place [((2,1), red_man); ((3,2), black_man)]) red))))
    by (vm_compute; reflexivity).
  split; [exact H|].
  destruct (win_detection _ _ _ _ _ _ _ _ _ _ _ _ H) as [_ [_ [_ [B _]]]].
  apply B.
  - intro Hc; vm_compute in Hc; discriminate.
  - vm_compute; reflexivity.
Defined.

(* ------------------------------------------------------------------ *)
(** ** C5: the king-capture scenario *)

(** C5 (amended).  With a red king on (5,5) and a black man on (4,4) the
    capture enumeration of (5,5) is exactly the capture over (4,4) to
    (3,3); but (3,3) is a light square, so [makeMove] from (5,5) to (3,3)
    is rejected with "Can only move to dark squares" and the session is
    unchanged.  The same position on dark squares, king on (5,4) and black
    man on (4,3), lists the capture to (3,2), and playing it removes the
    black man and moves the king to (3,2). *)
Theorem king_capture_scenario :
  getPieceCaptues scenario_board 5 5 = [mkCapture (5, 5) (3, 3) (4, 4)] /\
  makeMove 5 5 3 3 "A" scenario_session = Ret (MoveFail r_dark) scenario_session /\
  getPieceCaptues dark_scenario_board 5 4 = [mkCapture (5, 4) (3, 2) (4, 3)] /\
  (exists pr cont w gs s',
     makeMove 5 4 3 2 "A" dark_scenario_session = Ret (MoveOk (Some black_man) pr cont w gs) s' /\
     cell_at (board_of s') 4 3 = None /\ cell_at (board_of s') 5 4 = None /\
     cell_at (board_of s') 3 2 = Some red_king).
Proof.
  split; [vm_compute; reflexivity|].
  split; [vm_compute; reflexivity|].
  split; [vm_compute; reflexivity|].
  do 5 eexists. split; [vm_compute; reflexivity|].
  vm_compute; repeat split.
Qed.

(** C5, as stated, fails: the capture from (5,5) to (3,3) is listed, but
    [makeMove] rejects it and the black man stays on (4,4), the king on
    (5,5). *)
Lemma king_capture_scenario_counterexample :
  In (mkCapture (5, 5) (3, 3) (4, 4)) (getPieceCaptues scenario_board 5 5) /\
  makeMove 5 5 3 3 "A" scenario_session = Ret (MoveFail r_dark) scenario_session /\
  cell_at (board_of scenario_session) 4 4 = Some black_man /\
  cell_at (board_of scenario_session) 5 5 = Some red_king.
Proof. vm_compute; repeat split; left; reflexivity. Qed.

(* ------------------------------------------------------------------ *)
(** ** C6 and C10: new-game requests *)

Lemma set_add_In l x : In x l -> set_add l x = l.
Proof.
  unfold set_add; intros H.
  replace (existsb (String.eqb x) l) with true; [reflexivity|].
  symmetry; apply existsb_exists; exists x; split; [exact H|apply String.eqb_refl].
Qed.

Lemma set_newGameRequests_same s : set_newGameRequests (newGameRequests s) s = s.
Proof. destruct s; reflexivity. Qed.

Lemma requestNewGame_waiting s id :
  (nkeys (players s) = 2)%nat -> (List.length (set_add (newGameRequests s) id) <> 2)%nat ->
  requestNewGame id s = Ret WaitingForOther (set_newGameRequests (set_add (newGameRequests s) id) s).
Proof.
  intros Hn Hl. unfold requestNewGame; cbn [players newGameRequests set_newGameRequests].
  rewrite Hn. apply Nat.eqb_neq in Hl. rewrite Hl. reflexivity.
Qed.

Lemma resetGame_fields s :
  board_of (resetGame s) = initializeBoard /\ currentPlayer (resetGame s) = red /\
  winner (resetGame s) = None /\ newGameRequests (resetGame s) = [].
Proof. unfold resetGame; destruct (nkeys _ =? 2)%nat; repeat split. Qed.

Lemma resetGame_two s :
  (nkeys (players s) = 2)%nat ->
  board_of (resetGame s) = initializeBoard /\ currentPlayer (resetGame s) = red /\
  winner (resetGame s) = None /\ mustCapture (resetGame s) = false /\
  capturingPiece (resetGame s) = None /\ gameState (resetGame s) = turn_selection /\
  newGameRequests (resetGame s) = [].
Proof.
  intros Hn. unfold resetGame. cbn [players set_newGameRequests set_capturingPiece
    set_mustCapture set_board set_winner set_currentPlayer].
  rewrite Hn. repeat split.
Qed.

(** C6.  New-game unanimity, from a round with no pending request in a room
    of two players: a first request from [a] only records [a] (board, turn,
    phase and winner unchanged) and waits; a request from another connection
    [b] then resets the game: initial board, red to move, no winner, no
    continuation, turn-order selection, no pending request.  If [a] cancels
    instead, a single request from any connection still only waits.  In a
    room of one player, a request resets at once. *)
Theorem new_game_unanimity :
  (forall s a b,
     (nkeys (players s) = 2)%nat -> newGameRequests s = [] -> a <> b ->
     requestNewGame a s = Ret WaitingForOther (set_newGameRequests [a] s) /\
     board_of (set_newGameRequests [a] s) = board_of s /\
     currentPlayer (set_newGameRequests [a] s) = currentPlayer s /\
     gameState (set_newGameRequests [a] s) = gameState s /\
     winner (set_newGameRequests [a] s) = winner s /\
     requestNewGame b (set_newGameRequests [a] s) =
       Ret BothAgreed (resetGame (set_newGameRequests [a; b] s)) /\
     board_of (resetGame (set_newGameRequests [a; b] s)) = initializeBoard /\
     currentPlayer (resetGame (set_newGameRequests [a; b] s)) = red /\
     winner (resetGame (set_newGameRequests [a; b] s)) = None /\
     mustCapture (resetGame (set_newGameRequests [a; b] s)) = false /\
     capturingPiece (resetGame (set_newGameRequests [a; b] s)) = None /\
     gameState (resetGame (set_newGameRequests [a; b] s)) = turn_selection /\
     newGameRequests (resetGame (set_newGameRequests [a; b] s)) = [] /\
     (forall x,
        requestNewGame x (state_after (cancelNewGameRequest a (set_newGameRequests [a] s))) =
        Ret WaitingForOther (set_newGameRequests [x] s))) /\
  (forall s x,
     (nkeys (players s) = 1)%nat ->
     requestNewGame x s =
       Ret SinglePlayer (resetGame (set_newGameRequests (set_add (newGameRequests s) x) s)) /\
     board_of (resetGame (set_newGameRequests (set_add (newGameRequests s) x) s)) = initializeBoard /\
     currentPlayer (resetGame (set_newGameRequests (set_add (newGameRequests s) x) s)) = red /\
     winner (resetGame (set_newGameRequests (set_add (newGameRequests s) x) s)) = None /\
     newGameRequests (resetGame (set_newGameRequests (set_add (newGameRequests s) x) s)) = []).
Proof.
  split.
  - intros s a b Hn He Hab.
    assert (Hba : String.eqb b a = false) by (apply String.eqb_neq; congruence).
    assert (Hab2 : set_add [a] b = [a; b])
      by (unfold set_add; cbn [existsb]; rewrite Hba; reflexivity).
    assert (Hn2 : (nkeys (players (set_newGameRequests [a; b] s)) = 2)%nat) by exact Hn.
    destruct (resetGame_two _ Hn2) as [R1 [R2 [R3 [R4 [R5 [R6 R7]]]]]].
    split.
    { rewrite requestNewGame_waiting by (rewrite ?He; first [exact Hn | discriminate]).
      rewrite He; reflexivity. }
    do 4 (split; [reflexivity|]).
    split.
    { unfold requestNewGame. cbn [players newGameRequests set_newGameRequests].
      rewrite Hab2. cbn [set_newGameRequests newGameRequests].
      replace (nkeys (players s) =? 2)%nat with true by (symmetry; apply Nat.eqb_eq, Hn).
      reflexivity. }
    do 7 (split; [assumption|]).
    intros x. cbn [cancelNewGameRequest state_after newGameRequests set_newGameRequests set_delete filter].
    rewrite String.eqb_refl; cbn [negb].
    rewrite requestNewGame_waiting by (first [exact Hn | discriminate]).
    reflexivity.
  - intros s x Hn.
    assert (Hn1 : forall l, (nkeys (players (set_newGameRequests l s)) = 1)%nat) by exact (fun _ => Hn).
    destruct (resetGame_fields (set_newGameRequests (set_add (newGameRequests s) x) s))
      as [R1 [R2 [R3 R4]]].
    split; [|tauto].
    unfold requestNewGame. cbn [players newGameRequests set_newGameRequests].
    rewrite Hn. reflexivity.
Qed.

Lemma new_game_unanimity_witness :
  (nkeys (players early_requests_session) = 2)%nat /\
  requestNewGame "A" (set_newGameRequests [] early_requests_session) =
    Ret WaitingForOther (set_newGameRequests ["A"%string] (set_newGameRequests [] early_requests_session)) /\
  requestNewGame "B" (set_newGameRequests ["A"%string] (set_newGameRequests [] early_requests_session)) =
    Ret BothAgreed (resetGame (set_newGameRequests ["A"%string; "B"%string]
                                 (set_newGameRequests [] early_requests_session))).
Proof.
  destruct new_game_unanimity as [H _].
  assert (Hn : (nkeys (players (set_newGameRequests [] early_requests_session)) = 2)%nat)
    by (vm_compute; reflexivity).
  destruct (H (set_newGameRequests [] early_requests_session) "A"%string "B"%string Hn
             eq_refl ltac:(discriminate)) as [H1 [_ [_ [_ [_ [H2 _]]]]]].
  split; [exact Hn|]. split; [exact H1|exact H2].
Defined.

(** C10 (amended).  In a room of two players, a repeated request from a
    connection already pending, while the pending set does not hold two
    connections, returns "waiting for the other player" and changes
    nothing; in particular a player requesting alone again never resets. *)
Theorem request_idempotent s id :
  (nkeys (players s) = 2)%nat -> In id (newGameRequests s) ->
  (List.length (newGameRequests s) <> 2)%nat ->
  requestNewGame id s = Ret WaitingForOther s.
Proof.
  intros Hn Hin Hl.
  rewrite requestNewGame_waiting by (rewrite ?set_add_In by exact Hin; assumption).
  rewrite set_add_In by exact Hin. rewrite set_newGameRequests_same. reflexivity.
Qed.

Lemma request_idempotent_witness :
  (nkeys (players (set_newGameRequests ["A"%string] start_session)) = 2)%nat /\
  requestNewGame "A" (set_newGameRequests ["A"%string] start_session) =
    Ret WaitingForOther (set_newGameRequests ["A"%string] start_session).
Proof.
  split; [vm_compute; reflexivity|].
  apply request_idempotent; [vm_compute; reflexivity|left; reflexivity|discriminate].
Defined.

(** C10, as stated, fails: connections "A" and "B" ask for a new game before
    joining the room; once both have joined and a move has been played, a
    repeated request from "A" finds both in the pending set and resets the
    game: the board is the initial one again and the pending set is
    emptied. *)
Lemma request_idempotent_counterexample :
  (nkeys (players early_requests_session) = 2)%nat /\
  In "A"%string (newGameRequests early_requests_session) /\
  requestNewGame "A" early_requests_session = Ret BothAgreed (resetGame early_requests_session) /\
  board_of early_requests_session <> initializeBoard /\
  board_of (resetGame early_requests_session) = initializeBoard /\
  newGameRequests (resetGame early_requests_session) = [].
Proof.
  split; [vm_compute; reflexivity|].
  split; [vm_compute; left; reflexivity|].
  split; [vm_compute; reflexivity|].
  split; [vm_compute; discriminate|].
  split; reflexivity.
Qed.

(* ------------------------------------------------------------------ *)
(** ** C7: pieces stay on dark squares *)

Lemma session_inv_board s s' : board_of s' = board_of s -> session_inv s -> session_inv s'.
Proof. unfold session_inv; intros ->; auto. Qed.

Lemma session_inv_set_cell s b r c v :
  session_inv s -> board_of s = b -> (v = None \/ Z.odd (r + c) = true) ->
  dark_board (set_cell b r c v) /\ well_shaped (set_cell b r c v).
Proof.
  intros [Hd Hw] <- Hv. split; [apply dark_board_set_cell|apply well_shaped_set_cell]; auto.
Qed.

Lemma initializeBoard_inv : dark_board initializeBoard /\ well_shaped initializeBoard.
Proof.
  assert (Hw : well_shaped initializeBoard) by (apply well_shapedb_spec; vm_compute; reflexivity).
  split; [apply dark_boardb_spec; [exact Hw|vm_compute; reflexivity]|exact Hw].
Qed.

Lemma resetGame_inv s : session_inv (resetGame s).
Proof.
  unfold session_inv. destruct (resetGame_fields s) as [-> _]. exact initializeBoard_inv.
Qed.

Lemma move_piece_inv s fr fc tr tc v p cp c s1 :
  session_inv s -> Z.odd (tr + tc) = true ->
  move_piece s fr fc tr tc v p = (cp, c, s1) -> session_inv s1.
Proof.
  intros Hs Ho. unfold move_piece.
  assert (H1 : dark_board (set_cell (set_cell (board_of s) tr tc (Some p)) fr fc None) /\
               well_shaped (set_cell (set_cell (board_of s) tr tc (Some p)) fr fc None)).
  { apply (session_inv_set_cell (set_board (set_cell (board_of s) tr tc (Some p)) s));
      [apply (session_inv_set_cell s); auto|reflexivity|left; reflexivity]. }
  destruct v as [r| |cr cc].
  - intros H; inversion H; subst; exact H1.
  - intros H; inversion H; subst; exact H1.
  - assert (H2 : session_inv (set_board (set_cell (set_cell (set_cell (board_of s) tr tc (Some p))
                                         fr fc None) cr cc None) s)).
    { apply (session_inv_set_cell (set_board (set_cell (set_cell (board_of s) tr tc (Some p))
                                         fr fc None) s)); [exact H1|reflexivity|left; reflexivity]. }
    destruct (getPieceCaptues _ tr tc); intros H; inversion H; subst; exact H2.
Qed.

Lemma makeMove_inv s fr fc tr tc pid :
  session_inv s -> session_inv (state_after (makeMove fr fc tr tc pid s)).
Proof.
  intros Hs. unfold makeMove.
  destruct (isValidMove s fr fc tr tc pid) as [v|] eqn:Ev; [|exact Hs].
  destruct v as [r| |cr cc]; [exact Hs| |];
  (assert (Ho : Z.odd (tr + tc) = true)
     by (apply (isValidMove_accepted _ _ _ _ _ _ _ Ev); intros r1; discriminate));
  (destruct (cell_at (board_of s) fr fc) as [p|]; [|exact Hs]);
  (destruct (move_piece s fr fc tr tc _ p) as [[cp c] s1] eqn:Em);
  pose proof (move_piece_inv _ _ _ _ _ _ _ _ _ _ Hs Ho Em) as H1;
  cbv beta iota zeta; cbn [state_after];
  unfold session_inv; rewrite record_winner_board;
  destruct (promotes p tr), c; cbn [andb negb board_of set_currentPlayer set_board
    set_capturingPiece set_mustCapture];
  first [exact H1 | apply (session_inv_set_cell s1); auto].
Qed.

Lemma exec_inv c s : session_inv s -> session_inv (exec c s).
Proof.
  intros Hs. destruct c as [id nm|id|fr fc tr tc id|id ch|id|id]; cbn [exec].
  - apply (session_inv_board s); [|exact Hs].
    unfold addPlayer. destruct (2 <=? nkeys (players s))%nat; [reflexivity|].
    destruct (nkeys (players _) =? 2)%nat; [|reflexivity].
    destruct (find_red _) as [[? ?]|]; reflexivity.
  - apply (session_inv_board s); [|exact Hs].
    unfold removePlayer. cbn [state_after]. destruct (nkeys _ =? 0)%nat; reflexivity.
  - apply makeMove_inv; exact Hs.
  - apply (session_inv_board s); [|exact Hs].
    unfold selectTurnOrder, start_game.
    destruct (negb _ || negb _); [reflexivity|].
    destruct (String.eqb ch "self"); [destruct (lookup_player id (players s)); reflexivity|].
    destruct (String.eqb ch "opponent"); [destruct (lookup_player id (players s)); reflexivity|].
    reflexivity.
  - unfold requestNewGame.
    destruct (_ && _); [apply resetGame_inv|].
    destruct (_ =? 1)%nat; [apply resetGame_inv|].
    apply (session_inv_board s); [reflexivity|exact Hs].
  - apply (session_inv_board s); [reflexivity|exact Hs].
Qed.

Lemma run_inv cs s : session_inv s -> session_inv (run cs s).
Proof.
  unfold run. revert s; induction cs as [|c cs IH]; intros s Hs; [exact Hs|].
  cbn [fold_left]. apply IH, exec_inv, Hs.
Qed.

(** C7.  In every session a fresh [CheckersGame] reaches under any sequence
    of [addPlayer], [removePlayer], [makeMove], [selectTurnOrder],
    [requestNewGame] and [cancelNewGameRequest] (a thrown call keeps the
    state it had reached), every occupied cell [(row, col)] has [row + col]
    odd, and the board stays 8 rows of 8 cells.  A cell is [null] or one
    piece object, so it never holds two pieces. *)
Theorem dark_square_invariant s :
  reachable s ->
  (forall r c p, cell_at (board_of s) r c = Some p -> Z.odd (r + c) = true) /\
  well_shaped (board_of s).
Proof.
  intros [code [cs ->]]. apply run_inv.
  unfold session_inv, newCheckersGame; cbn [board_of]. exact initializeBoard_inv.
Qed.

Lemma dark_square_invariant_witness :
  reachable early_requests_session /\
  cell_at (board_of early_requests_session) 3 0 = Some red_man /\
  Z.odd (3 + 0) = true.
Proof.
  assert (H : reachable early_requests_session)
    by (exists "ROOM01"%string; eexists; reflexivity).
  split; [exact H|].
  assert (Hc : cell_at (board_of early_requests_session) 3 0 = Some red_man)
    by (vm_compute; reflexivity).
  split; [exact Hc|].
  destruct (dark_square_invariant _ H) as [Hd _]. exact (Hd _ _ _ Hc).
Defined.

(* ------------------------------------------------------------------ *)
(** ** C8 and C9: rejected moves *)

(** A rejected move is a rejection of [isValidMove] and leaves the session
    as it was. *)
Lemma makeMove_fail s fr fc tr tc pid r s' :
  makeMove fr fc tr tc pid s = Ret (MoveFail r) s' ->
  isValidMove s fr fc tr tc pid = Some (Invalid r) /\ s' = s.
Proof.
  unfold makeMove.
  destruct (isValidMove s fr fc tr tc pid) as [[r0| |cr cc]|]; intros H; try discriminate H;
    [inversion H; subst; auto| |];
    (destruct (cell_at (board_of s) fr fc); [|discriminate H]);
    destruct (move_piece _ _ _ _ _ _ _) as [[? ?] ?]; discriminate H.
Qed.

Lemma isValidMove_reasons s fr fc tr tc pid r :
  isValidMove s fr fc tr tc pid = Some (Invalid r) ->
  In r [r_not_your_turn; r_invalid_source; r_destination; r_dark; r_continue;
        r_move_direction; r_must_capture; r_capture_direction; r_no_piece; r_distance].
Proof.
  unfold isValidMove.
  repeat match goal with
         | |- context [match ?x with _ => _ end] => destruct x
         | |- context [if ?x then _ else _] => destruct x
         end;
    intros H; inversion H; subst; cbn [In]; tauto.
Qed.

(** C8.  Misuse is not harmless: a client coordinate outside the board
    ([fromRow = 8]) or a connection id that is not a player makes [makeMove]
    throw a [TypeError] instead of returning a rejection.  Rejections that
    are returned do leave the session unchanged. *)
Theorem protocol_misuse_throws :
  makeMove 8 0 7 1 "A" start_session = Throw start_session /\
  makeMove 2 1 3 0 "Z" start_session = Throw start_session /\
  (forall s fr fc tr tc pid r s',
     makeMove fr fc tr tc pid s = Ret (MoveFail r) s' -> s' = s).
Proof.
  split; [vm_compute; reflexivity|].
  split; [vm_compute; reflexivity|].
  intros s fr fc tr tc pid r s' H. exact (proj2 (makeMove_fail _ _ _ _ _ _ _ _ H)).
Qed.

(** C9 (amended).  Every rejection [makeMove] returns carries the reason
    of one of the eight move codes or one of two more, "Invalid move
    direction" and "Invalid capture direction"; every rejection of
    [selectTurnOrder] carries the reason of [NotAuthorized] or
    [InvalidTurnOrderChoice]. *)
Theorem rejection_reasons :
  (forall s fr fc tr tc pid r s',
     makeMove fr fc tr tc pid s = Ret (MoveFail r) s' ->
     (exists c, code_of_reason r = Some c /\ In c move_reason_codes) \/
     r = r_move_direction \/ r = r_capture_direction) /\
  (forall pid ch s r s',
     selectTurnOrder pid ch s = Ret (TurnFail r) s' ->
     code_of_reason r = Some NotAuthorized \/ code_of_reason r = Some InvalidTurnOrderChoice).
Proof.
  split.
  - intros s fr fc tr tc pid r s' H.
    apply makeMove_fail, proj1, isValidMove_reasons in H.
    cbn [In] in H.
    repeat destruct H as [<-|H];
      first [right; left; reflexivity | right; right; reflexivity
            | left; eexists; split; [reflexivity|cbn [move_reason_codes In]; tauto]
            | contradiction].
  - intros pid ch s r s'. unfold selectTurnOrder, start_game.
    destruct (negb _ || negb _);
      [intros H; inversion H; subst; left; reflexivity|].
    destruct (String.eqb ch "self");
      [destruct (lookup_player pid (players s)); discriminate|].
    destruct (String.eqb ch "opponent");
      [destruct (lookup_player pid (players s)); discriminate|].
    intros H; inversion H; subst; right; reflexivity.
Qed.

Lemma rejection_reasons_witness :
  makeMove 2 5 1 4 "A" jump_session = Ret (MoveFail r_move_direction) jump_session /\
  ((exists c, code_of_reason r_move_direction = Some c /\ In c move_reason_codes) \/
   r_move_direction = r_move_direction \/ r_move_direction = r_capture_direction) /\
  selectTurnOrder "A" "self" start_session = Ret (TurnFail r_not_authorized) start_session /\
  (code_of_reason r_not_authorized = Some NotAuthorized \/
   code_of_reason r_not_authorized = Some InvalidTurnOrderChoice).
Proof.
  assert (H : makeMove 2 5 1 4 "A" jump_session = Ret (MoveFail r_move_direction) jump_session)
    by (vm_compute; reflexivity).
  assert (H2 : selectTurnOrder "A" "self" start_session = Ret (TurnFail r_not_authorized) start_session)
    by (vm_compute; reflexivity).
  split; [exact H|split; [exact (proj1 rejection_reasons _ _ _ _ _ _ _ _ H)|split; [exact H2|]]].
  exact (proj2 rejection_reasons _ _ _ _ _ H2).
Defined.

(** C9, as stated, fails: a backward step of a red man is rejected with
    "Invalid move direction", which stands for none of the listed codes. *)
Lemma rejection_reasons_counterexample :
  makeMove 2 5 1 4 "A" jump_session = Ret (MoveFail r_move_direction) jump_session /\
  code_of_reason r_move_direction = None.
Proof. split; vm_compute; reflexivity. Qed.

(* ------------------------------------------------------------------ *)
(** ** Piece counts *)

Lemma nodup_sq_spec l : nodup_sq l = true -> NoDup l.
Proof.
  induction l as [|x t IH]; simpl; intros H; [constructor|].
  apply andb_true_iff in H as [H1 H2]. constructor; [|auto].
  intros Hin. apply negb_true_iff in H1.
  assert (E : existsb (fun y => (fst y =? fst x) && (snd y =? snd x)) t = true);
    [|rewrite E in H1; discriminate].
  apply existsb_exists.
  exists x; split; [exact Hin|rewrite !Z.eqb_refl; reflexivity].
Qed.

Lemma squares_NoDup : NoDup squares.
Proof. apply nodup_sq_spec; vm_compute; reflexivity. Qed.

Lemma filter_length_point (L : list (Z * Z)) a f g :
  NoDup L -> In a L -> (forall x, In x L -> x <> a -> f x = g x) ->
  (List.length (filter g L) + (if f a then 1 else 0) =
   List.length (filter f L) + (if g a then 1 else 0))%nat.
Proof.
  induction L as [|x t IH]; intros Hnd Hin Hfg; [destruct Hin|].
  inversion Hnd as [|? ? Hx Ht]; subst.
  assert (Hfg' : forall y, In y t -> y <> a -> f y = g y) by (intros; apply Hfg; simpl; auto).
  destruct Hin as [<-|Hin].
  - assert (E : filter g t = filter f t).
    { apply filter_ext_in. intros y Hy. symmetry; apply Hfg'; [exact Hy|].
      intros ->; contradiction. }
    simpl. rewrite E. destruct (f x), (g x); simpl; lia.
  - assert (Hne : x <> a) by (intros ->; contradiction).
    simpl. rewrite (Hfg x (or_introl eq_refl) Hne).
    specialize (IH Ht Hin Hfg').
    destruct (g x); simpl; lia.
Qed.

Lemma countPieces_owned b col :
  countPieces b col = List.length (filter (fun rc => owned (cell_at b (fst rc) (snd rc)) col) squares).
Proof. unfold countPieces. apply (f_equal (@List.length _)), filter_ext. intros [r c]; reflexivity. Qed.

Lemma cell_at_set_cell_same b r c v :
  well_shaped b -> 0 <= r < 8 -> 0 <= c < 8 -> cell_at (set_cell b r c v) r c = v.
Proof.
  intros Hw Hr Hc. rewrite cell_at_set_cell, !Z.eqb_refl, cell_exists_in_range; auto.
Qed.

Lemma cell_at_set_cell_other b r c v r' c' :
  r <> r' -> cell_at (set_cell b r c v) r' c' = cell_at b r' c'.
Proof. intros H. rewrite cell_at_set_cell. apply Z.eqb_neq in H. rewrite H. reflexivity. Qed.

(** Writing [v] into an in-board cell: the count of a color loses the old
    content and gains [v]. *)
Lemma countPieces_set_cell b r c v col :
  well_shaped b -> 0 <= r < 8 -> 0 <= c < 8 ->
  (countPieces (set_cell b r c v) col + (if owned (cell_at b r c) col then 1 else 0) =
   countPieces b col + (if owned v col then 1 else 0))%nat.
Proof.
  intros Hw Hr Hc. rewrite !countPieces_owned.
  replace (owned v col) with (owned (cell_at (set_cell b r c v) r c) col)
    by (rewrite cell_at_set_cell_same; auto).
  apply (filter_length_point squares (r, c)
           (fun rc => owned (cell_at b (fst rc) (snd rc)) col)
           (fun rc => owned (cell_at (set_cell b r c v) (fst rc) (snd rc)) col)).
  - exact squares_NoDup.
  - apply in_squares_iff; auto.
  - intros [x y] _ Hne. cbn [fst snd]. rewrite cell_at_set_cell.
    destruct (Z.eqb_spec r x), (Z.eqb_spec c y); subst; try reflexivity.
    exfalso; apply Hne; reflexivity.
Qed.

Lemma cell_exists_range b r c :
  well_shaped b -> cell_exists b r c = true -> 0 <= r < 8 /\ 0 <= c < 8.
Proof.
  intros [Hl Hrows]. unfold cell_exists.
  destruct (js_index b r) as [rw|] eqn:E; [|discriminate].
  pose proof (js_index_Some_range _ _ _ E) as Hr.
  assert (Hrw : List.length rw = 8%nat).
  { apply Hrows. unfold js_index in E. destruct (0 <=? r); [|discriminate].
    eapply nth_error_In; eauto. }
  rewrite andb_true_iff, Z.leb_le, Z.ltb_lt, Hrw. rewrite Hl in Hr. simpl in *. lia.
Qed.

Lemma cell_at_Some_range b r c p :
  well_shaped b -> cell_at b r c = Some p -> 0 <= r < 8 /\ 0 <= c < 8.
Proof.
  intros Hw Hp. destruct (Z.le_gt_cases 0 r), (Z.lt_ge_cases r 8), (Z.le_gt_cases 0 c),
    (Z.lt_ge_cases c 8); try (split; lia);
    rewrite cell_at_out_of_range in Hp by (auto; lia); discriminate.
Qed.

Lemma isValidMove_jump_middle s fr fc tr tc pid cr cc :
  isValidMove s fr fc tr tc pid = Some (ValidJump cr cc) ->
  exists m, get_cell (board_of s) cr cc = Some (Obj m) /\ pcolor m <> currentPlayer s.
Proof.
  unfold isValidMove.
  destruct (lookup_player pid (players s)); [|discriminate].
  destruct (negb _); [discriminate|].
  destruct (get_cell (board_of s) fr fc) as [[| |p0]|]; try discriminate.
  destruct (negb _); [discriminate|].
  destruct (get_cell (board_of s) tr tc) as [[| |q]|]; try discriminate.
  destruct (Z.rem (tr + tc) 2 =? 0); [discriminate|].
  destruct (blocked_by_continuation s fr fc); [discriminate|].
  destruct (_ && _).
  - destruct (_ && _); [discriminate|]. destruct (getAvailableCaptures _ _); discriminate.
  - destruct (_ && _); [|discriminate].
    destruct (_ && _); [discriminate|].
    destruct (get_cell (board_of s) _ _) as [[| |m]|] eqn:E; try discriminate.
    destruct (color_eqb (pcolor m) (currentPlayer s)) eqn:Ec; [discriminate|].
    intros H; inversion H; subst. exists m; split; [exact E|].
    intros He; apply color_eqb_eq in He; congruence.
Qed.

(** The board a successful [makeMove] leaves. *)
Lemma makeMove_board s fr fc tr tc pid cp pr cont w gs s' :
  makeMove fr fc tr tc pid s = Ret (MoveOk cp pr cont w gs) s' ->
  exists v p, isValidMove s fr fc tr tc pid = Some v /\ (forall r, v <> Invalid r) /\
    cell_at (board_of s) fr fc = Some p /\
    let b1 := set_cell (set_cell (board_of s) tr tc (Some p)) fr fc None in
    let b2 := match v with ValidJump cr cc => set_cell b1 cr cc None | _ => b1 end in
    board_of s' = (if promotes p tr then set_cell b2 tr tc (Some (mkPiece (pcolor p) true)) else b2) /\
    cp = match v with ValidJump cr cc => cell_at b1 cr cc | _ => None end.
Proof.
  intros H. invert_makeMove H; eexists; exists p; (split; [reflexivity|]);
    (split; [intros ? ?; discriminate|]); (split; [reflexivity|]);
    unfold move_piece in Emp;
    [|destruct (getPieceCaptues _ tr tc) eqn:Eg];
    inversion Emp; subst; rewrite record_winner_board;
    destruct (promotes p tr); simpl; auto.
Qed.

Lemma countPieces_promote b r c p col :
  well_shaped b -> 0 <= r < 8 -> 0 <= c < 8 -> cell_at b r c = Some p ->
  countPieces (set_cell b r c (Some (mkPiece (pcolor p) true))) col = countPieces b col.
Proof.
  intros Hw Hr Hc Hp. pose proof (countPieces_set_cell b r c (Some (mkPiece (pcolor p) true)) col Hw Hr Hc) as E.
  rewrite Hp in E. cbn [owned pcolor] in E. lia.
Qed.

(** Piece counts across a successful move. *)
Lemma move_piece_counts s fr fc tr tc pid cp pr cont w gs s' :
  well_shaped (board_of s) ->
  makeMove fr fc tr tc pid s = Ret (MoveOk cp pr cont w gs) s' ->
  countPieces (board_of s') (currentPlayer s) = countPieces (board_of s) (currentPlayer s) /\
  ((Z.abs (tr - fr) = 1 /\ cp = None /\
    countPieces (board_of s') (other (currentPlayer s)) =
    countPieces (board_of s) (other (currentPlayer s))) \/
   (Z.abs (tr - fr) = 2 /\ exists m, cp = Some m /\ pcolor m = other (currentPlayer s) /\
    S (countPieces (board_of s') (other (currentPlayer s))) =
    countPieces (board_of s) (other (currentPlayer s)))).
Proof.
  intros Hw H.
  destruct (makeMove_board _ _ _ _ _ _ _ _ _ _ _ _ H) as [v [p [Ev [Hnot [Ep [Hb Hcp]]]]]].
  destruct (isValidMove_accepted _ _ _ _ _ _ _ Ev Hnot) as [_ [[p' [Hf Hown]] [Ht [_ [_ Hshape]]]]].
  assert (Ep' := get_cell_Obj _ _ _ _ Hf). rewrite Ep in Ep'. injection Ep' as <-.
  clear H. revert Hb Hcp.
  set (b := board_of s) in *. set (cur := currentPlayer s) in *.
  set (b0 := set_cell b tr tc (Some p)). set (b1 := set_cell b0 fr fc None).
  intros Hb Hcp.
  destruct (cell_at_Some_range _ _ _ _ Hw Ep) as [Rfr Rfc].
  destruct (cell_exists_range _ _ _ Hw (get_cell_Null_exists _ _ _ Ht)) as [Rtr Rtc].
  pose proof (get_cell_Null _ _ _ Ht) as Ht'.
  assert (Hne : fr <> tr) by (destruct v; [contradiction|lia|lia]).
  assert (Hw0 : well_shaped b0) by apply well_shaped_set_cell, Hw.
  assert (Hw1 : well_shaped b1) by apply well_shaped_set_cell, Hw0.
  assert (C1 : forall col, countPieces b1 col = countPieces b col).
  { intros col.
    pose proof (countPieces_set_cell b tr tc (Some p) col Hw Rtr Rtc) as E1.
    pose proof (countPieces_set_cell b0 fr fc None col Hw0 Rfr Rfc) as E2.
    rewrite Ht' in E1. unfold b0 in E2 at 2. rewrite cell_at_set_cell_other in E2 by congruence.
    rewrite Ep in E2. fold b0 in E1, E2. fold b1 in E2. cbn [owned] in E1, E2. lia. }
  assert (Pt1 : cell_at b1 tr tc = Some p).
  { unfold b1; rewrite cell_at_set_cell_other by congruence.
    unfold b0; apply cell_at_set_cell_same; auto. }
  assert (Hcur : pcolor p = cur) by exact Hown.
  destruct v as [r| |cr cc]; [contradiction| |].
  - destruct Hshape as [Hd _]. cbv beta iota in Hb, Hcp.
    assert (Hs' : forall col, countPieces (board_of s') col = countPieces b col)
      by (intros col; rewrite Hb; destruct (promotes p tr);
          [rewrite countPieces_promote by auto|]; apply C1).
    split; [apply Hs'|]. left. split; [exact Hd|]. split; [exact Hcp|apply Hs'].
  - destruct Hshape as [Hd [_ [Hcr Hcc]]].
    destruct (isValidMove_jump_middle _ _ _ _ _ _ _ _ Ev) as [m [Hm Hmc]].
    pose proof (get_cell_Obj _ _ _ _ Hm) as Hm'.
    destruct (cell_at_Some_range _ _ _ _ Hw Hm') as [Rcr Rcc].
    assert (Hcr1 : cr <> fr /\ cr <> tr)
      by (assert (tr - fr = 2 \/ tr - fr = -2) as [E|E] by lia; rewrite E in Hcr; simpl in Hcr; lia).
    assert (Pm1 : cell_at b1 cr cc = Some m).
    { unfold b1; rewrite cell_at_set_cell_other by lia.
      unfold b0; rewrite cell_at_set_cell_other by lia. exact Hm'. }
    cbv beta iota in Hb, Hcp.
    set (b2 := set_cell b1 cr cc None) in *.
    assert (Hw2 : well_shaped b2) by apply well_shaped_set_cell, Hw1.
    assert (Pt2 : cell_at b2 tr tc = Some p)
      by (unfold b2; rewrite cell_at_set_cell_other by lia; exact Pt1).
    assert (Hmo : pcolor m = other cur) by (clear - Hmc; revert Hmc; unfold cur; generalize (pcolor m) (currentPlayer s);
          intros [] []; simpl; congruence).
    assert (C2 : forall col, (countPieces b2 col + (if owned (Some m) col then 1 else 0) =
                              countPieces b col)%nat).
    { intros col. pose proof (countPieces_set_cell b1 cr cc None col Hw1 Rcr Rcc) as E.
      rewrite Pm1 in E. fold b2 in E. rewrite <- (C1 col). cbn [owned] in E |- *. lia. }
    assert (Hb2 : countPieces (board_of s') cur = countPieces b2 cur /\
                  countPieces (board_of s') (other cur) = countPieces b2 (other cur))
      by (rewrite Hb; destruct (promotes p tr);
          [rewrite !countPieces_promote by auto; split; reflexivity|split; reflexivity]).
    destruct Hb2 as [Hb2a Hb2b].
    pose proof (C2 cur) as C2a. pose proof (C2 (other cur)) as C2b.
    cbn [owned] in C2a, C2b. rewrite Hmo in C2a, C2b.
    rewrite color_eqb_refl in C2b.
    replace (color_eqb (other cur) cur) with false in C2a by (destruct cur; reflexivity).
    split; [lia|]. right. split; [exact Hd|].
    exists m. split; [rewrite Hcp; exact Pm1|]. split; [exact Hmo|lia].
Qed.

Lemma makeMove_throw s fr fc tr tc pid s' :
  makeMove fr fc tr tc pid s = Throw s' -> s' = s.
Proof.
  unfold makeMove.
  destruct (isValidMove s fr fc tr tc pid) as [[r| |cr cc]|]; intros H;
    [discriminate H| | |inversion H; reflexivity];
    (destruct (cell_at (board_of s) fr fc); [|inversion H; reflexivity]);
    destruct (move_piece _ _ _ _ _ _ _) as [[? ?] ?]; discriminate H.
Qed.

(** A command leaves the board as it was, resets it, or plays a move. *)
Lemma exec_board_cases c s :
  board_of (exec c s) = board_of s \/ board_of (exec c s) = initializeBoard \/
  exists fr fc tr tc pid cp pr cont w gs,
    makeMove fr fc tr tc pid s = Ret (MoveOk cp pr cont w gs) (exec c s).
Proof.
  destruct c as [id nm|id|fr fc tr tc id|id ch|id|id]; cbn [exec].
  - left. unfold addPlayer. destruct (2 <=? nkeys (players s))%nat; [reflexivity|].
    destruct (nkeys (players _) =? 2)%nat; [|reflexivity].
    destruct (find_red _) as [[? ?]|]; reflexivity.
  - left. unfold removePlayer. cbn [state_after]. destruct (nkeys _ =? 0)%nat; reflexivity.
  - destruct (makeMove fr fc tr tc id s) as [[r|cp pr cont w gs] s'|s'] eqn:E.
    + left. cbn [state_after]. apply makeMove_fail in E as [_ ->]. reflexivity.
    + right; right. exists fr, fc, tr, tc, id, cp, pr, cont, w, gs. exact E.
    + left. cbn [state_after]. apply makeMove_throw in E as ->. reflexivity.
  - left. unfold selectTurnOrder, start_game.
    destruct (negb _ || negb _); [reflexivity|].
    destruct (String.eqb ch "self"); [destruct (lookup_player id (players s)); reflexivity|].
    destruct (String.eqb ch "opponent"); [destruct (lookup_player id (players s)); reflexivity|].
    reflexivity.
  - unfold requestNewGame.
    destruct (_ && _); [right; left; apply resetGame_fields|].
    destruct (_ =? 1)%nat; [right; left; apply resetGame_fields|left; reflexivity].
  - left; reflexivity.
Qed.

Lemma countPieces_initial : countPieces initializeBoard red = 12%nat /\ countPieces initializeBoard black = 12%nat.
Proof. split; vm_compute; reflexivity. Qed.

Lemma run_piece_bound cs s :
  session_inv s -> (countPieces (board_of s) red <= 12)%nat -> (countPieces (board_of s) black <= 12)%nat ->
  (countPieces (board_of (run cs s)) red <= 12)%nat /\ (countPieces (board_of (run cs s)) black <= 12)%nat.
Proof.
  unfold run. revert s; induction cs as [|c cs IH]; intros s Hs Hr Hb; [exact (conj Hr Hb)|].
  cbn [fold_left].
  assert (Hnext : (countPieces (board_of (exec c s)) red <= 12)%nat /\
                  (countPieces (board_of (exec c s)) black <= 12)%nat).
  { destruct (exec_board_cases c s) as [E|[E|[fr [fc [tr [tc [pid [cp [pr [cont [w [gs E]]]]]]]]]]]].
    - rewrite E. exact (conj Hr Hb).
    - rewrite E. destruct countPieces_initial as [A B]. rewrite A, B. split; apply Nat.le_refl.
    - destruct (move_piece_counts _ _ _ _ _ _ _ _ _ _ _ _ (proj2 Hs) E) as [Hown Hopp].
      assert (Hle : (countPieces (board_of (exec c s)) (other (currentPlayer s)) <=
                     countPieces (board_of s) (other (currentPlayer s)))%nat)
        by (destruct Hopp as [[_ [_ H]]|[_ [m [_ [_ H]]]]]; lia).
      revert Hown Hle. destruct (currentPlayer s); cbn [other]; intros; split; lia. }
  destruct Hnext as [H1 H2]. apply IH; [apply exec_inv, Hs|exact H1|exact H2].
Qed.

(* ------------------------------------------------------------------ *)
(** ** Room bookkeeping *)

Lemma record_winner_newGameRequests s : newGameRequests (record_winner s) = newGameRequests s.
Proof. unfold record_winner; destruct (checkGameOver s); reflexivity. Qed.

Lemma obj_set_keys ps id p :
  map fst (obj_set ps id p) =
  if existsb (fun k => String.eqb k id) (map fst ps) then map fst ps else map fst ps ++ [id].
Proof.
  induction ps as [|[k q] t IH]; [reflexivity|].
  cbn [obj_set map fst existsb]. destruct (String.eqb k id); [reflexivity|].
  cbn [map fst orb]. rewrite IH. destruct (existsb _ _); reflexivity.
Qed.

Lemma map_fst_obj_delete ps id :
  map fst (obj_delete ps id) = filter (fun k => negb (String.eqb k id)) (map fst ps).
Proof.
  induction ps as [|[k q] t IH]; [reflexivity|].
  unfold obj_delete in *. cbn [filter map fst]. destruct (negb (String.eqb k id)); cbn [map fst];
    rewrite IH; reflexivity.
Qed.

Lemma NoDup_snoc (l : list string) x : NoDup l -> ~ In x l -> NoDup (l ++ [x]).
Proof.
  intros H Hx. apply NoDup_app; [exact H|constructor; [intros []|constructor]|].
  intros a Ha [<-|[]]; contradiction.
Qed.

Lemma existsb_eqb_In (l : list string) x f :
  (forall k, f k = String.eqb k x) -> existsb f l = false -> ~ In x l.
Proof.
  intros Hf H Hin. assert (E : existsb f l = true).
  { apply existsb_exists. exists x. split; [exact Hin|rewrite Hf; apply String.eqb_refl]. }
  congruence.
Qed.

Lemma obj_set_ok ps id p :
  (nkeys ps < 2)%nat -> NoDup (map fst ps) ->
  (nkeys (obj_set ps id p) <= 2)%nat /\ NoDup (map fst (obj_set ps id p)).
Proof.
  intros Hn Hd. unfold nkeys in *.
  rewrite <- (length_map fst (obj_set ps id p)), obj_set_keys.
  destruct (existsb (fun k => String.eqb k id) (map fst ps)) eqn:E.
  - rewrite length_map. split; [lia|exact Hd].
  - rewrite length_app, length_map. cbn [List.length]. split; [lia|].
    apply NoDup_snoc; [exact Hd|]. apply (existsb_eqb_In _ _ _ (fun k => eq_refl) E).
Qed.

Lemma NoDup_set_add l x : NoDup l -> NoDup (set_add l x).
Proof.
  intros H. unfold set_add. destruct (existsb (String.eqb x) l) eqn:E; [exact H|].
  apply NoDup_snoc; [exact H|]. apply (existsb_eqb_In l x (String.eqb x)); [|exact E].
  intros k; apply String.eqb_sym.
Qed.

Lemma resetGame_frame s :
  players (resetGame s) = players s /\ newGameRequests (resetGame s) = [] /\
  mustCapture (resetGame s) = false /\ capturingPiece (resetGame s) = None.
Proof. unfold resetGame; destruct (nkeys _ =? 2)%nat; repeat split. Qed.

Lemma makeMove_ok_frame s fr fc tr tc pid cp pr cont w gs s' :
  makeMove fr fc tr tc pid s = Ret (MoveOk cp pr cont w gs) s' ->
  players s' = players s /\ newGameRequests s' = newGameRequests s /\ flags_consistent s'.
Proof.
  intros H. invert_makeMove H; unfold move_piece in Emp;
    [|destruct (getPieceCaptues _ tr tc)]; inversion Emp; subst;
    unfold flags_consistent;
    rewrite record_winner_players, record_winner_newGameRequests, record_winner_mustCapture,
      record_winner_capturingPiece;
    destruct (promotes p tr); simpl; auto.
Qed.

Lemma exec_room c s :
  room_ok s -> flags_consistent s -> room_ok (exec c s) /\ flags_consistent (exec c s).
Proof.
  intros [Hn [Hk Hp]] Hf. unfold room_ok, flags_consistent in *.
  destruct c as [id nm|id|fr fc tr tc id|id ch|id|id]; cbn [exec].
  - unfold addPlayer. destruct (Nat.leb_spec 2 (nkeys (players s))) as [Hge|Hlt].
    + cbn [state_after]. auto.
    + destruct (obj_set_ok (players s) id
                  (mkPlayer nm (if (nkeys (players s) =? 0)%nat then red else black)) Hlt Hk)
        as [Hn' Hk'].
      destruct (nkeys (players (set_players _ s)) =? 2)%nat;
        [destruct (find_red _) as [[? ?]|]|]; cbn [state_after]; cbn; auto.
  - unfold removePlayer. cbn [state_after].
    assert (Hr : (nkeys (obj_delete (players s) id) <= 2)%nat /\
                 NoDup (map fst (obj_delete (players s) id)) /\
                 NoDup (set_delete (newGameRequests s) id)).
    { split; [|split].
      - unfold nkeys, obj_delete in *. pose proof (filter_length_le
          (fun kp => negb (String.eqb (fst kp) id)) (players s)). lia.
      - rewrite map_fst_obj_delete. apply NoDup_filter, Hk.
      - apply NoDup_filter, Hp. }
    destruct (nkeys _ =? 0)%nat; cbn; auto.
  - destruct (makeMove fr fc tr tc id s) as [[r|cp pr cont w gs] s'|s'] eqn:E; cbn [state_after].
    + apply makeMove_fail in E as [_ ->]. auto.
    + destruct (makeMove_ok_frame _ _ _ _ _ _ _ _ _ _ _ _ E) as [-> [-> Hf']]. auto.
    + apply makeMove_throw in E as ->. auto.
  - unfold selectTurnOrder, start_game.
    destruct (negb _ || negb _); [cbn; auto|].
    destruct (String.eqb ch "self"); [destruct (lookup_player id (players s)); cbn; auto|].
    destruct (String.eqb ch "opponent"); [destruct (lookup_player id (players s)); cbn; auto|].
    cbn; auto.
  - unfold requestNewGame.
    destruct (_ && _);
      [cbn [state_after]; destruct (resetGame_frame (set_newGameRequests
          (set_add (newGameRequests s) id) s)) as [-> [-> [-> ->]]];
       cbn; repeat split; auto; constructor|].
    destruct (_ =? 1)%nat;
      [cbn [state_after]; destruct (resetGame_frame (set_newGameRequests
          (set_add (newGameRequests s) id) s)) as [-> [-> [-> ->]]];
       cbn; repeat split; auto; constructor|].
    cbn. repeat split; auto. apply NoDup_set_add, Hp.
  - cbn. repeat split; auto. apply NoDup_filter, Hp.
Qed.

Lemma run_room cs s :
  room_ok s -> flags_consistent s -> room_ok (run cs s) /\ flags_consistent (run cs s).
Proof.
  unfold run. revert s; induction cs as [|c cs IH]; intros s H1 H2; [exact (conj H1 H2)|].
  cbn [fold_left]. destruct (exec_room c s H1 H2) as [H1' H2']. exact (IH _ H1' H2').
Qed.

Lemma reachable_room s : reachable s -> room_ok s /\ flags_consistent s.
Proof.
  intros [code [cs ->]]. apply run_room.
  - repeat split; cbn; [lia|constructor|constructor].
  - reflexivity.
Qed.

(* ------------------------------------------------------------------ *)
(** ** Move lists *)

Lemma jumps_of_directions b r c p ds :
  map mto (filter is_jump (flat_map (fun '(dRow, dCol) =>
        (if in_board (r + dRow) (c + dCol) && is_empty (cell_at b (r + dRow) (c + dCol))
         then [mkMove (r, c) (r + dRow, c + dCol) Step] else [])
        ++ (if in_board (r + 2 * dRow) (c + 2 * dCol)
               && is_opponent p (cell_at b (r + dRow) (c + dCol))
               && is_empty (cell_at b (r + 2 * dRow) (c + 2 * dCol))
            then [mkMove (r, c) (r + 2 * dRow, c + 2 * dCol) Jump] else [])) ds)) =
  map cto (flat_map (fun '(dRow, dCol) =>
        if in_board (r + 2 * dRow) (c + 2 * dCol)
           && is_opponent p (cell_at b (r + dRow) (c + dCol))
           && is_empty (cell_at b (r + 2 * dRow) (c + 2 * dCol))
        then [mkCapture (r, c) (r + 2 * dRow, c + 2 * dCol) (r + dRow, c + dCol)] else []) ds).
Proof.
  induction ds as [|[dr dc] ds IH]; [reflexivity|].
  cbn [flat_map]. rewrite !filter_app, !map_app, IH. f_equal.
  destruct (in_board (r + dr) (c + dc) && _); destruct (in_board (r + 2 * dr) (c + 2 * dc) && _ && _);
    reflexivity.
Qed.

(** The capture moves of one piece. *)
Lemma piece_jumps_captures b r c :
  map mto (filter is_jump (getValidMovesForPiece b r c)) = map cto (getPieceCaptues b r c).
Proof.
  unfold getValidMovesForPiece, getPieceCaptues.
  destruct (cell_at b r c) as [p|]; [apply jumps_of_directions|reflexivity].
Qed.

(** likewise for a whole color: the capture moves of
    [getValidMovesForPlayer] land exactly where the captures of
    [getAvailableCaptures] land, in the same order. *)
Theorem player_jumps_are_captures b col :
  map mto (filter is_jump (getValidMovesForPlayer b col)) = map cto (getAvailableCaptures b col).
Proof.
  unfold getValidMovesForPlayer, getAvailableCaptures.
  induction squares as [|[r c] L IH]; [reflexivity|].
  cbn [flat_map]. rewrite filter_app, !map_app, IH. f_equal.
  destruct (cell_at b r c) as [p|] eqn:Ep; [|reflexivity].
  destruct (color_eqb (pcolor p) col); [apply piece_jumps_captures|reflexivity].
Qed.

Lemma in_getValidMovesForPlayer b col mv :
  In mv (getValidMovesForPlayer b col) ->
  exists r c p, cell_at b r c = Some p /\ pcolor p = col /\ In mv (getValidMovesForPiece b r c).
Proof.
  unfold getValidMovesForPlayer; rewrite in_flat_map. intros [[r c] [Hsq Hin]].
  destruct (cell_at b r c) as [p|] eqn:Hp; [|destruct Hin].
  destruct (color_eqb (pcolor p) col) eqn:Hc; [|destruct Hin].
  apply color_eqb_eq in Hc. exists r, c, p; repeat split; auto.
Qed.

Lemma in_getValidMovesForPiece b r c mv :
  In mv (getValidMovesForPiece b r c) ->
  exists p dr dc, cell_at b r c = Some p /\ In (dr, dc) (directions p) /\
    ((mv = mkMove (r, c) (r + dr, c + dc) Step /\ in_board (r + dr) (c + dc) = true /\
      is_empty (cell_at b (r + dr) (c + dc)) = true) \/
     (mv = mkMove (r, c) (r + 2 * dr, c + 2 * dc) Jump /\
      In (mkCapture (r, c) (r + 2 * dr, c + 2 * dc) (r + dr, c + dc)) (getPieceCaptues b r c))).
Proof.
  unfold getValidMovesForPiece. destruct (cell_at b r c) as [p|] eqn:Hp; [|intros []].
  rewrite in_flat_map. intros [[dr dc] [Hd Hin]]. exists p, dr, dc.
  split; [reflexivity|]. split; [exact Hd|].
  apply in_app_or in Hin as [Hin|Hin].
  - left. destruct (in_board (r + dr) (c + dc)) eqn:E1; [|destruct Hin].
    destruct (is_empty (cell_at b (r + dr) (c + dc))) eqn:E2; [|destruct Hin].
    destruct Hin as [<-|[]]. auto.
  - right. destruct (in_board (r + 2 * dr) (c + 2 * dc) && _ && _) eqn:E; [|destruct Hin].
    destruct Hin as [<-|[]]. split; [reflexivity|].
    unfold getPieceCaptues. rewrite Hp. apply in_flat_map. exists (dr, dc).
    split; [exact Hd|]. rewrite E. left; reflexivity.
Qed.

Lemma isValidMove_step s fr fc tr tc pid pl p :
  lookup_player pid (players s) = Some pl -> color_of pl = currentPlayer s ->
  get_cell (board_of s) fr fc = Some (Obj p) -> pcolor p = currentPlayer s ->
  get_cell (board_of s) tr tc = Some Null -> Z.odd (tr + tc) = true ->
  blocked_by_continuation s fr fc = false ->
  Z.abs (tr - fr) = 1 -> Z.abs (tc - fc) = 1 ->
  (king p = true \/ tr - fr = expectedDirection p) ->
  getAvailableCaptures (board_of s) (currentPlayer s) = [] ->
  isValidMove s fr fc tr tc pid = Some ValidStep.
Proof.
  intros Hpl Hturn Hfrom Hown Hto Hdark Hb Hr Hc Hdir Hcap.
  unfold isValidMove; rewrite Hpl, Hturn, color_eqb_refl; cbn [negb].
  rewrite Hfrom, Hown, color_eqb_refl; cbn [negb].
  rewrite Hto, rem2_eqb_odd, Hdark; cbn [negb].
  rewrite Hb, Hr, Hc; cbn [Z.eqb Pos.eqb andb].
  replace (negb (king p) && negb (tr - fr =? expectedDirection p)) with false
    by (destruct Hdir as [->| ->]; [reflexivity|rewrite Z.eqb_refl, andb_false_r; reflexivity]).
  rewrite Hcap. reflexivity.
Qed.

(** Moves listed for the color to move are accepted. *)
Lemma listed_moves_ok s pid pl mv :
  session_inv s -> lookup_player pid (players s) = Some pl -> color_of pl = currentPlayer s ->
  In mv (getValidMovesForPlayer (board_of s) (currentPlayer s)) ->
  blocked_by_continuation s (fst (mfrom mv)) (snd (mfrom mv)) = false ->
  (is_jump mv = true \/ getAvailableCaptures (board_of s) (currentPlayer s) = []) ->
  exists cp pr cont w gs s',
    makeMove (fst (mfrom mv)) (snd (mfrom mv)) (fst (mto mv)) (snd (mto mv)) pid s =
    Ret (MoveOk cp pr cont w gs) s'.
Proof.
  intros Hs Hpl Hturn Hin Hb Hobl.
  destruct (in_getValidMovesForPlayer _ _ _ Hin) as [r [c [p [Hp [Hcol Hpm]]]]].
  destruct (in_getValidMovesForPiece _ _ _ _ Hpm) as [p' [dr [dc [Hp' [Hd Hcase]]]]].
  rewrite Hp in Hp'. injection Hp' as <-.
  destruct Hcase as [[-> [Hib Hem]]|[-> Hk]]; cbn [mfrom mto fst snd is_jump mkind] in *.
  - destruct Hobl as [Hj|Hcap]; [discriminate Hj|].
    destruct Hs as [Hdk Hw].
    destruct (directions_unit _ _ _ Hd) as [Hdr [Hdc Hfw]].
    destruct (cell_at_Some_range _ _ _ _ Hw Hp) as [Rr Rc].
    apply in_board_spec in Hib as [Rr' Rc'].
    assert (Hv : isValidMove s r c (r + dr) (c + dc) pid = Some ValidStep).
    { apply (isValidMove_step _ _ _ _ _ _ pl p); auto.
      - rewrite get_cell_in_range, Hp by auto; reflexivity.
      - rewrite get_cell_in_range by auto.
        destruct (cell_at (board_of s) (r + dr) (c + dc)); [discriminate Hem|reflexivity].
      - apply (step_parity r c); [lia|lia|exact (Hdk _ _ _ Hp)].
      - lia.
      - lia.
      - destruct (king p); [left; reflexivity|right; rewrite <- Hfw by reflexivity; lia]. }
    apply (makeMove_valid_ok _ _ _ _ _ _ _ p Hv); [intros r0; discriminate|exact Hp].
  - assert (Hav : In (mkCapture (r, c) (r + 2 * dr, c + 2 * dc) (r + dr, c + dc))
                     (getAvailableCaptures (board_of s) (currentPlayer s))).
    { unfold getAvailableCaptures. apply in_flat_map. exists (r, c).
      split; [apply in_squares_iff; apply (cell_at_Some_range _ _ _ _ (proj2 Hs) Hp)|].
      rewrite Hp, Hcol, color_eqb_refl. exact Hk. }
    destruct (available_capture_valid _ _ _ _ Hs Hpl Hturn Hav Hb) as [p0 [Hp0 Hv]].
    cbn [cfrom cto ccaptured fst snd] in Hp0, Hv.
    apply (makeMove_valid_ok _ _ _ _ _ _ _ p0 Hv); [intros r0; discriminate|exact Hp0].
Qed.

(** every move [getValidMovesForPlayer] lists for the color to move is
    accepted by [makeMove] from a player of that color, on a board whose
    pieces stand on dark squares, unless a pending continuation binds
    another piece, or the move is a step while some capture is available. *)
Theorem listed_moves_playable s pid pl mv :
  session_inv s -> lookup_player pid (players s) = Some pl -> color_of pl = currentPlayer s ->
  In mv (getValidMovesForPlayer (board_of s) (currentPlayer s)) ->
  blocked_by_continuation s (fst (mfrom mv)) (snd (mfrom mv)) = false ->
  (is_jump mv = true \/ getAvailableCaptures (board_of s) (currentPlayer s) = []) ->
  exists cp pr cont w gs s',
    makeMove (fst (mfrom mv)) (snd (mfrom mv)) (fst (mto mv)) (snd (mto mv)) pid s =
    Ret (MoveOk cp pr cont w gs) s'.
Proof.
  intros Hs Hpl Hturn Hin Hb Hobl. exact (listed_moves_ok s pid pl mv Hs Hpl Hturn Hin Hb Hobl).
Qed.

(* ------------------------------------------------------------------ *)
(** ** Seating, leaving, turn order and new-game requests *)

(** [addPlayer] refuses a third player and changes nothing; the first
    player is red; a second, distinct player facing a red player is black,
    and the room enters turn-order selection with the red player as
    selector. *)
Theorem addPlayer_seats :
  (forall s id nm, (2 <= nkeys (players s))%nat -> addPlayer id nm s = Ret false s) /\
  (forall s id nm, players s = [] ->
     addPlayer id nm s = Ret true (set_players [(id, mkPlayer nm red)] s)) /\
  (forall s id nm id1 p1, players s = [(id1, p1)] -> id1 <> id -> color_of p1 = red ->
     addPlayer id nm s =
     Ret true (set_turnOrderSelector (Some id1) (set_waiting true (set_gameState turn_selection
                 (set_players [(id1, p1); (id, mkPlayer nm black)] s))))).
Proof.
  split; [|split].
  - intros s id nm H. unfold addPlayer. apply Nat.leb_le in H. rewrite H. reflexivity.
  - intros s id nm H. unfold addPlayer. rewrite H. reflexivity.
  - intros s id nm id1 p1 H Hne Hc. unfold addPlayer. rewrite H.
    apply String.eqb_neq in Hne. cbn [nkeys List.length Nat.leb Nat.eqb obj_set].
    rewrite Hne. unfold find_red. cbn. rewrite Hc. reflexivity.
Qed.

Lemma addPlayer_seats_witness :
  addPlayer "B" "Bob" (set_players [("A"%string, mkPlayer "Ann" red)] (newCheckersGame "ROOM01")) =
  Ret true (set_turnOrderSelector (Some "A"%string) (set_waiting true (set_gameState turn_selection
    (set_players [("A"%string, mkPlayer "Ann" red); ("B"%string, mkPlayer "Bob" black)]
       (set_players [("A"%string, mkPlayer "Ann" red)] (newCheckersGame "ROOM01")))))).
Proof.
  destruct addPlayer_seats as [_ [_ H]]. apply H; [reflexivity|discriminate|reflexivity].
Defined.

(** if the red player has left and a black player remains, the next
    player to join is also black; [addPlayer] records them, switches to
    turn-order selection, then throws a [TypeError] on [redPlayer[0]]. *)
Theorem addPlayer_no_red_throws s id nm id1 p1 :
  players s = [(id1, p1)] -> id1 <> id -> color_of p1 = black ->
  addPlayer id nm s =
  Throw (set_waiting true (set_gameState turn_selection
           (set_players [(id1, p1); (id, mkPlayer nm black)] s))).
Proof.
  intros H Hne Hc. unfold addPlayer. rewrite H.
  apply String.eqb_neq in Hne. cbn [nkeys List.length Nat.leb Nat.eqb obj_set].
  rewrite Hne. unfold find_red. cbn. rewrite Hc. reflexivity.
Qed.

Lemma addPlayer_no_red_throws_witness :
  let s := state_after (removePlayer "A"
             (state_after (addPlayer "B" "Bob"
               (state_after (addPlayer "A" "Ann" (newCheckersGame "ROOM01")))))) in
  players s = [("B"%string, mkPlayer "Bob" black)] /\
  addPlayer "C" "Cy" s =
  Throw (set_waiting true (set_gameState turn_selection
           (set_players [("B"%string, mkPlayer "Bob" black); ("C"%string, mkPlayer "Cy" black)] s))).
Proof.
  intros s. assert (H : players s = [("B"%string, mkPlayer "Bob" black)]) by reflexivity.
  split; [exact H|]. apply addPlayer_no_red_throws; [exact H|discriminate|reflexivity].
Defined.

(** a connection that joins twice while alone in the room is seated
    again as black: the room still has one player, now black. *)
Theorem addPlayer_rejoin_black s id p nm :
  players s = [(id, p)] ->
  addPlayer id nm s = Ret true (set_players [(id, mkPlayer nm black)] s).
Proof.
  intros H. unfold addPlayer. rewrite H. cbn [nkeys List.length Nat.leb Nat.eqb obj_set].
  rewrite String.eqb_refl. reflexivity.
Qed.

Lemma addPlayer_rejoin_black_witness :
  addPlayer "A" "Ann" (state_after (addPlayer "A" "Ann" (newCheckersGame "ROOM01"))) =
  Ret true (set_players [("A"%string, mkPlayer "Ann" black)]
              (state_after (addPlayer "A" "Ann" (newCheckersGame "ROOM01")))).
Proof. apply (addPlayer_rejoin_black _ "A" (mkPlayer "Ann" red)). reflexivity. Defined.

Lemma lookup_obj_delete ps id k :
  lookup_player k (obj_delete ps id) = if String.eqb k id then None else lookup_player k ps.
Proof.
  unfold obj_delete. induction ps as [|[k' q] t IH]; simpl.
  - destruct (String.eqb k id); reflexivity.
  - destruct (String.eqb_spec k' id) as [E1|Hne]; simpl.
    + rewrite IH. destruct (String.eqb_spec k id) as [E2|Hne']; [reflexivity|].
      destruct (String.eqb_spec k' k) as [E3|_]; [congruence|reflexivity].
    + rewrite IH. destruct (String.eqb_spec k' k) as [E|Hne'].
      * destruct (String.eqb_spec k id); [congruence|reflexivity].
      * reflexivity.
Qed.

(** after [removePlayer id] the room has no player [id] and no pending
    request from [id]; every other player and request is kept, the board and
    turn are untouched, and the game is [finished] exactly when nobody is
    left (otherwise its phase is unchanged). *)
Theorem removePlayer_spec s id :
  let s' := state_after (removePlayer id s) in
  lookup_player id (players s') = None /\
  (forall k, k <> id -> lookup_player k (players s') = lookup_player k (players s)) /\
  ~ In id (newGameRequests s') /\
  (forall k, k <> id -> In k (newGameRequests s') <-> In k (newGameRequests s)) /\
  board_of s' = board_of s /\ currentPlayer s' = currentPlayer s /\
  gameState s' = (if (nkeys (obj_delete (players s) id) =? 0)%nat then finished else gameState s).
Proof.
  cbv zeta. unfold removePlayer. cbn [state_after].
  assert (G : forall s1, players s1 = obj_delete (players s) id ->
                newGameRequests s1 = set_delete (newGameRequests s) id ->
                board_of s1 = board_of s -> currentPlayer s1 = currentPlayer s ->
                lookup_player id (players s1) = None /\
                (forall k, k <> id -> lookup_player k (players s1) = lookup_player k (players s)) /\
                ~ In id (newGameRequests s1) /\
                (forall k, k <> id -> In k (newGameRequests s1) <-> In k (newGameRequests s)) /\
                board_of s1 = board_of s /\ currentPlayer s1 = currentPlayer s).
  { intros s1 Hp Hq Hb Hc. rewrite Hp, Hq, Hb, Hc. unfold set_delete.
    split; [rewrite lookup_obj_delete, String.eqb_refl; reflexivity|].
    split; [intros k Hk; rewrite lookup_obj_delete; apply String.eqb_neq in Hk; rewrite Hk; reflexivity|].
    split; [rewrite filter_In; cbn; rewrite String.eqb_refl; intros [_ Hf]; discriminate Hf|].
    split; [|split; reflexivity].
    intros k Hk. rewrite filter_In. apply String.eqb_neq in Hk. rewrite Hk. cbn. tauto. }
  destruct (nkeys _ =? 0)%nat eqn:E.
  - destruct (G (set_gameState finished (set_newGameRequests (set_delete (newGameRequests s) id)
                   (set_players (obj_delete (players s) id) s)))) as [A [B [C [D [F H]]]]];
      try reflexivity.
    repeat split; auto; apply D; auto.
  - destruct (G (set_newGameRequests (set_delete (newGameRequests s) id)
                   (set_players (obj_delete (players s) id) s))) as [A [B [C [D [F H]]]]];
      try reflexivity.
    repeat split; auto; apply D; auto.
Qed.

Lemma set_delete_snoc l x : ~ In x l -> set_delete (l ++ [x]) x = l.
Proof.
  unfold set_delete. intros H. rewrite filter_app. cbn. rewrite String.eqb_refl, app_nil_r.
  induction l as [|y t IH]; [reflexivity|]. cbn.
  destruct (String.eqb_spec y x) as [E|E]; [subst; exfalso; apply H; left; reflexivity|].
  cbn. f_equal. apply IH. intros Hin. apply H. right. exact Hin.
Qed.

(** with two players seated, a request from a player who has not asked
    yet, while the number of pending requests is not 1, waits for the other
    player; cancelling it then restores the session exactly. *)
Theorem request_cancel_roundtrip s id :
  nkeys (players s) = 2%nat -> ~ In id (newGameRequests s) -> List.length (newGameRequests s) <> 1%nat ->
  exists s1, requestNewGame id s = Ret WaitingForOther s1 /\ cancelNewGameRequest id s1 = Ret tt s.
Proof.
  intros Hn Hnin Hlen. unfold requestNewGame, set_add.
  assert (E : existsb (String.eqb id) (newGameRequests s) = false).
  { destruct (existsb _ _) eqn:Ex; [|reflexivity]. exfalso. apply Hnin.
    apply existsb_exists in Ex. destruct Ex as [y [Hy Ey]]. apply String.eqb_eq in Ey. subst; exact Hy. }
  rewrite E. cbn [newGameRequests set_newGameRequests players]. rewrite Hn.
  rewrite length_app. cbn [List.length].
  replace ((List.length (newGameRequests s) + 1 =? 2)%nat) with false
    by (symmetry; apply Nat.eqb_neq; lia).
  cbn. eexists; split; [reflexivity|].
  unfold cancelNewGameRequest. cbn [newGameRequests set_newGameRequests].
  rewrite set_delete_snoc by exact Hnin. destruct s; reflexivity.
Qed.

Lemma request_cancel_roundtrip_witness :
  nkeys (players seated_session) = 2%nat /\ ~ In "A"%string (newGameRequests seated_session) /\
  List.length (newGameRequests seated_session) <> 1%nat /\
  exists s1, requestNewGame "A" seated_session = Ret WaitingForOther s1 /\
             cancelNewGameRequest "A" s1 = Ret tt seated_session.
Proof.
  assert (H1 : nkeys (players seated_session) = 2%nat) by reflexivity.
  assert (H2 : ~ In "A"%string (newGameRequests seated_session)) by (vm_compute; tauto).
  assert (H3 : List.length (newGameRequests seated_session) <> 1%nat) by (vm_compute; discriminate).
  split; [exact H1|split; [exact H2|split; [exact H3|]]].
  exact (request_cancel_roundtrip seated_session "A" H1 H2 H3).
Defined.

(** a successful [selectTurnOrder] happens only while turn selection is
    awaited and only for the selector; the color it starts with is the
    selector's own for "self" and the other one for "opponent"; it starts
    play, clears the selector, and every later call is refused as not
    authorized. *)
Theorem selectTurnOrder_once id ch s c n s' :
  selectTurnOrder id ch s = Ret (TurnOk c n) s' ->
  waitingForTurnOrderSelection s = true /\ turnOrderSelector s = Some id /\
  (exists sel, lookup_player id (players s) = Some sel /\
     ((ch = "self"%string /\ c = color_of sel) \/ (ch = "opponent"%string /\ c = other (color_of sel)))) /\
  s' = set_turnOrderSelector None (set_waiting false (set_gameState playing (set_currentPlayer c s))) /\
  (forall id' ch', selectTurnOrder id' ch' s' = Ret (TurnFail r_not_authorized) s').
Proof.
  unfold selectTurnOrder.
  destruct (turnOrderSelector s) as [sid|] eqn:Et; [|cbn; discriminate].
  destruct (String.eqb_spec id sid) as [<-|Hne]; [|cbn; discriminate].
  destruct (waitingForTurnOrderSelection s) eqn:Ew; [|cbn; discriminate].
  cbn [negb orb].
  assert (Hlater : forall c0 id' ch',
    selectTurnOrder id' ch' (set_turnOrderSelector None (set_waiting false
      (set_gameState playing (set_currentPlayer c0 s)))) =
    Ret (TurnFail r_not_authorized) (set_turnOrderSelector None (set_waiting false
      (set_gameState playing (set_currentPlayer c0 s))))) by (intros; reflexivity).
  destruct (String.eqb_spec ch "self") as [Hs|Hs].
  - destruct (lookup_player id (players s)) as [sel|] eqn:El; [|discriminate].
    unfold start_game. intros H. injection H as Hc Hn Hs'. subst c s'.
    split; [reflexivity|split; [reflexivity|split; [exists sel; split; [reflexivity|left; split; [exact Hs|reflexivity]]|split; [reflexivity|]]]].
    intros id' ch'. apply (Hlater (color_of sel) id' ch').
  - destruct (String.eqb_spec ch "opponent") as [Ho|Ho]; [|discriminate].
    destruct (lookup_player id (players s)) as [sel|] eqn:El; [|discriminate].
    unfold start_game. intros H. injection H as Hc Hn Hs'. subst c s'.
    split; [reflexivity|split; [reflexivity|split; [exists sel; split; [reflexivity|right; split; [exact Ho|reflexivity]]|split; [reflexivity|]]]].
    intros id' ch'. apply (Hlater (other (color_of sel)) id' ch').
Qed.

Lemma selectTurnOrder_once_witness :
  let s' := state_after (selectTurnOrder "A" "self" seated_session) in
  selectTurnOrder "A" "self" seated_session = Ret (TurnOk red (Some "Ann"%string)) s' /\
  selectTurnOrder "B" "self" s' = Ret (TurnFail r_not_authorized) s'.
Proof.
  intros s'. assert (H : selectTurnOrder "A" "self" seated_session = Ret (TurnOk red (Some "Ann"%string)) s')
    by (vm_compute; reflexivity).
  split; [exact H|].
  destruct (selectTurnOrder_once _ _ _ _ _ _ H) as [_ [_ [_ [_ L]]]]. apply L.
Defined.

(* ------------------------------------------------------------------ *)
(** ** Moves, reset and the reachable sessions *)

Lemma move_piece_phase s w g fr fc tr tc v p :
  move_piece (set_winner w (set_gameState g s)) fr fc tr tc v p =
  let '(a, b, s1) := move_piece s fr fc tr tc v p in (a, b, set_winner w (set_gameState g s1)).
Proof.
  unfold move_piece. destruct v as [r| |cr cc]; try reflexivity.
  cbn [board_of set_winner set_gameState].
  destruct (getPieceCaptues _ tr tc); reflexivity.
Qed.

Lemma record_winner_same X Y :
  board_of X = board_of Y -> currentPlayer X = currentPlayer Y ->
  board_of (record_winner X) = board_of (record_winner Y) /\
  currentPlayer (record_winner X) = currentPlayer (record_winner Y).
Proof. intros B C. rewrite !record_winner_board, !record_winner_current. split; assumption. Qed.

(** [makeMove] never looks at the phase or the winner: a move it accepts
    is accepted in the same way once [gameState] and [winner] are set to
    anything (a finished game, or one still selecting the turn order), with
    the same captured piece, promotion, continuation, board and next
    player; a move it refuses is refused for the same reason. *)
Theorem makeMove_ignores_phase fr fc tr tc pid s g w :
  (forall cp pr cont w1 gs1 s1,
     makeMove fr fc tr tc pid s = Ret (MoveOk cp pr cont w1 gs1) s1 ->
     exists w2 gs2 s2,
       makeMove fr fc tr tc pid (set_winner w (set_gameState g s)) = Ret (MoveOk cp pr cont w2 gs2) s2 /\
       board_of s2 = board_of s1 /\ currentPlayer s2 = currentPlayer s1) /\
  (forall r, makeMove fr fc tr tc pid s = Ret (MoveFail r) s ->
     makeMove fr fc tr tc pid (set_winner w (set_gameState g s)) =
     Ret (MoveFail r) (set_winner w (set_gameState g s))).
Proof.
  unfold makeMove.
  change (isValidMove (set_winner w (set_gameState g s)) fr fc tr tc pid)
    with (isValidMove s fr fc tr tc pid).
  change (board_of (set_winner w (set_gameState g s))) with (board_of s).
  destruct (isValidMove s fr fc tr tc pid) as [[r| |cr cc]|];
    [split; [discriminate|intros r0 H; injection H as ->; reflexivity]| | |split; discriminate].
  all: destruct (cell_at (board_of s) fr fc) as [p|]; [|split; discriminate].
  all: rewrite move_piece_phase.
  all: destruct (move_piece s fr fc tr tc _ p) as [[a b] t] eqn:Em.
  all: split; [|discriminate].
  all: intros cp pr cont w1 gs1 s1 H; injection H as E1 E2 E3 E4 E5 E6; subst cp pr cont s1.
  all: do 3 eexists; split; [reflexivity|].
  all: apply record_winner_same.
  all: destruct (promotes p tr), b; reflexivity.
Qed.

Lemma makeMove_ignores_phase_witness :
  exists w2 gs2 s2,
    makeMove 2 1 4 3 "A" (set_winner (Some black) (set_gameState finished jump_session)) =
    Ret (MoveOk (Some black_man) false true w2 gs2) s2 /\
    board_of s2 = board_of jump_session_after /\ currentPlayer s2 = currentPlayer jump_session_after.
Proof.
  apply (proj1 (makeMove_ignores_phase 2 1 4 3 "A" jump_session finished (Some black))
           (Some black_man) false true None playing jump_session_after).
  vm_compute; reflexivity.
Defined.

(** [resetGame] always leaves a fresh position: the initial board with
    12 pieces of each color, red to move, no winner, no pending capture or
    request, a position [checkGameOver] does not end; the phase is turn
    selection with two players and waiting otherwise. *)
Theorem resetGame_fresh s :
  let s' := resetGame s in
  board_of s' = initializeBoard /\
  countPieces (board_of s') red = 12%nat /\ countPieces (board_of s') black = 12%nat /\
  currentPlayer s' = red /\ winner s' = None /\ checkGameOver s' = None /\
  mustCapture s' = false /\ capturingPiece s' = None /\ newGameRequests s' = [] /\
  players s' = players s /\
  gameState s' = (if (nkeys (players s) =? 2)%nat then turn_selection else waiting).
Proof.
  cbv zeta.
  assert (Hb : board_of (resetGame s) = initializeBoard)
    by (unfold resetGame; destruct (_ =? 2)%nat; reflexivity).
  assert (Hc : currentPlayer (resetGame s) = red)
    by (unfold resetGame; destruct (_ =? 2)%nat; reflexivity).
  assert (Hg : checkGameOver (resetGame s) = None)
    by (unfold checkGameOver; rewrite Hb, Hc; vm_compute; reflexivity).
  destruct countPieces_initial as [R B].
  split; [exact Hb|]. rewrite Hb, R, B.
  split; [reflexivity|split; [reflexivity|split; [exact Hc|]]].
  split; [unfold resetGame; destruct (_ =? 2)%nat; reflexivity|].
  split; [exact Hg|].
  unfold resetGame. cbn [players set_newGameRequests set_capturingPiece set_mustCapture set_board
                         set_winner set_currentPlayer].
  destruct (nkeys (players s) =? 2)%nat; repeat split.
Qed.

(** in every session a fresh [CheckersGame] reaches, whatever commands
    it receives (including ones that throw), each color has at most 12
    pieces on the board. *)
Theorem reachable_piece_bound s :
  reachable s ->
  (countPieces (board_of s) red <= 12)%nat /\ (countPieces (board_of s) black <= 12)%nat.
Proof.
  intros [code [cs ->]].
  destruct countPieces_initial as [R B].
  apply run_piece_bound.
  - destruct initializeBoard_inv as [D W]. split; [exact D|exact W].
  - cbn [board_of newCheckersGame]. rewrite R. apply Nat.le_refl.
  - cbn [board_of newCheckersGame]. rewrite B. apply Nat.le_refl.
Qed.

Lemma reachable_early_requests : reachable early_requests_session.
Proof. exists "ROOM01"%string. eexists. reflexivity. Qed.

Lemma reachable_piece_bound_witness :
  reachable early_requests_session /\
  (countPieces (board_of early_requests_session) red <= 12)%nat /\
  (countPieces (board_of early_requests_session) black <= 12)%nat.
Proof.
  split; [exact reachable_early_requests|].
  exact (reachable_piece_bound _ reachable_early_requests).
Defined.

(** in every reachable session the room holds at most two players under
    distinct ids, and no id is pending twice among the new-game requests. *)
Theorem reachable_room_bookkeeping s :
  reachable s ->
  (nkeys (players s) <= 2)%nat /\ NoDup (map fst (players s)) /\ NoDup (newGameRequests s).
Proof. intros H. exact (proj1 (reachable_room s H)). Qed.

Lemma reachable_room_bookkeeping_witness :
  reachable early_requests_session /\
  (nkeys (players early_requests_session) <= 2)%nat /\
  NoDup (map fst (players early_requests_session)) /\ NoDup (newGameRequests early_requests_session).
Proof.
  split; [exact reachable_early_requests|].
  exact (reachable_room_bookkeeping _ reachable_early_requests).
Defined.

(** in every reachable session [mustCapture] is set exactly when a
    piece bound to continue capturing is recorded in [capturingPiece]. *)
Theorem reachable_capture_flags s :
  reachable s ->
  mustCapture s = match capturingPiece s with Some _ => true | None => false end.
Proof. intros H. exact (proj2 (reachable_room s H)). Qed.

Lemma reachable_capture_flags_witness :
  reachable early_requests_session /\
  mustCapture early_requests_session =
  match capturingPiece early_requests_session with Some _ => true | None => false end.
Proof.
  split; [exact reachable_early_requests|].
  exact (reachable_capture_flags _ reachable_early_requests).
Defined.

(** a successful move keeps the mover's piece count; a step (one row)
    keeps the opponent's, and a jump (two rows) removes exactly one
    opponent piece, the one it reports as captured. *)
Theorem makeMove_piece_counts s fr fc tr tc pid cp pr cont w gs s' :
  well_shaped (board_of s) ->
  makeMove fr fc tr tc pid s = Ret (MoveOk cp pr cont w gs) s' ->
  countPieces (board_of s') (currentPlayer s) = countPieces (board_of s) (currentPlayer s) /\
  ((Z.abs (tr - fr) = 1 /\ cp = None /\
    countPieces (board_of s') (other (currentPlayer s)) = countPieces (board_of s) (other (currentPlayer s))) \/
   (Z.abs (tr - fr) = 2 /\ exists m, cp = Some m /\ pcolor m = other (currentPlayer s) /\
    S (countPieces (board_of s') (other (currentPlayer s))) = countPieces (board_of s) (other (currentPlayer s)))).
Proof. intros Hw H. exact (move_piece_counts s fr fc tr tc pid cp pr cont w gs s' Hw H). Qed.

Lemma makeMove_piece_counts_witness :
  countPieces (board_of jump_session_after) red = countPieces (board_of jump_session) red /\
  ((Z.abs (4 - 2) = 1 /\ Some black_man = None /\
    countPieces (board_of jump_session_after) black = countPieces (board_of jump_session) black) \/
   (Z.abs (4 - 2) = 2 /\ exists m, Some black_man = Some m /\ pcolor m = black /\
    S (countPieces (board_of jump_session_after) black) = countPieces (board_of jump_session) black)).
Proof.
  apply (makeMove_piece_counts jump_session 2 1 4 3 "A" (Some black_man) false true None playing
           jump_session_after).
  - apply well_shapedb_spec. vm_compute. reflexivity.
  - vm_compute. reflexivity.
Defined.

(** the capture moves [getValidMovesForPiece] lists are exactly the
    captures [getPieceCaptues] lists, with the same landing cells in the
    same order. *)
Theorem piece_jumps_are_captures b r c :
  map mto (filter is_jump (getValidMovesForPiece b r c)) = map cto (getPieceCaptues b r c).
Proof. exact (piece_jumps_captures b r c). Qed.

Lemma listed_moves_playable_witness :
  exists cp pr cont w gs s',
    makeMove 2 1 3 0 "A" start_session = Ret (MoveOk cp pr cont w gs) s'.
Proof.
  apply (listed_moves_playable start_session "A" (mkPlayer "Ann" red) (mkMove (2, 1) (3, 0) Step)).
  - apply session_inv_check; vm_compute; reflexivity.
  - reflexivity.
  - reflexivity.
  - vm_compute. repeat (first [left; reflexivity | right]).
  - reflexivity.
  - right. vm_compute. reflexivity.
Defined.

(* ------------------------------------------------------------------ *)
(** ** The move hints of the server *)

Lemma isValidMove_step_gen s fr fc tr tc pid pl p :
  lookup_player pid (players s) = Some pl -> color_of pl = currentPlayer s ->
  get_cell (board_of s) fr fc = Some (Obj p) -> pcolor p = currentPlayer s ->
  get_cell (board_of s) tr tc = Some Null -> Z.odd (tr + tc) = true ->
  blocked_by_continuation s fr fc = false ->
  Z.abs (tr - fr) = 1 -> Z.abs (tc - fc) = 1 ->
  (king p = true \/ tr - fr = expectedDirection p) ->
  isValidMove s fr fc tr tc pid =
  Some (match getAvailableCaptures (board_of s) (currentPlayer s) with
        | [] => ValidStep
        | _ :: _ => Invalid r_must_capture
        end).
Proof.
  intros Hpl Hturn Hfrom Hown Hto Hdark Hb Hr Hc Hdir.
  unfold isValidMove; rewrite Hpl, Hturn, color_eqb_refl; cbn [negb].
  rewrite Hfrom, Hown, color_eqb_refl; cbn [negb].
  rewrite Hto, rem2_eqb_odd, Hdark; cbn [negb].
  rewrite Hb, Hr, Hc; cbn [Z.eqb Pos.eqb andb].
  replace (negb (king p) && negb (tr - fr =? expectedDirection p)) with false
    by (destruct Hdir as [->| ->]; [reflexivity|rewrite Z.eqb_refl, andb_false_r; reflexivity]).
  destruct (getAvailableCaptures (board_of s) (currentPlayer s)); reflexivity.
Qed.

Lemma filter_jump_nil_iff b r c :
  filter is_jump (getValidMovesForPiece b r c) = [] <-> getPieceCaptues b r c = [].
Proof.
  pose proof (piece_jumps_captures b r c) as E.
  split; intros H; rewrite H in E; cbn [map] in E.
  - symmetry in E. exact (map_eq_nil _ _ E).
  - exact (map_eq_nil _ _ E).
Qed.

Lemma hint_move s sid row col ds t :
  get_possible_moves s sid row col = Some ds -> In t ds ->
  exists p pl mv, get_cell (board_of s) row col = Some (Obj p) /\
    lookup_player sid (players s) = Some pl /\ pcolor p = color_of pl /\
    blocked_by_continuation s row col = false /\
    In mv (getValidMovesForPiece (board_of s) row col) /\ mto mv = t /\
    (getPieceCaptues (board_of s) row col <> [] -> is_jump mv = true) /\
    (getPieceCaptues (board_of s) row col = [] -> is_jump mv = false).
Proof.
  unfold get_possible_moves.
  destruct (get_cell (board_of s) row col) as [[| |p]|] eqn:Eg;
    [intros H; injection H as <-; intros []|intros H; injection H as <-; intros []| |
     intros H; discriminate H].
  destruct (lookup_player sid (players s)) as [pl|] eqn:El; cbn [negb];
    [|intros H; injection H as <-; intros []].
  destruct (color_eqb (pcolor p) (color_of pl)) eqn:Ec; cbn [negb];
    [|intros H; injection H as <-; intros []].
  destruct (blocked_by_continuation s row col) eqn:Eb; [intros H; injection H as <-; intros []|].
  intros H; injection H as <-. intros Hin. apply in_map_iff in Hin as [mv [Ht Hmv]].
  apply color_eqb_eq in Ec.
  exists p, pl, mv. split; [reflexivity|]. split; [reflexivity|]. split; [exact Ec|].
  split; [reflexivity|].
  destruct (filter is_jump (getValidMovesForPiece (board_of s) row col)) as [|j js] eqn:Ef.
  - assert (Hc : getPieceCaptues (board_of s) row col = []) by (apply filter_jump_nil_iff; exact Ef).
    split; [exact Hmv|split; [exact Ht|split; [intros N; contradiction|intros _]]].
    destruct (is_jump mv) eqn:Ej; [|reflexivity]. exfalso.
    assert (Hf : In mv (filter is_jump (getValidMovesForPiece (board_of s) row col)))
      by (apply filter_In; split; [exact Hmv|exact Ej]).
    rewrite Ef in Hf. destruct Hf.
  - rewrite <- Ef in Hmv. apply filter_In in Hmv as [Hmv Hj].
    split; [exact Hmv|split; [exact Ht|split; [intros _; exact Hj|intros Hc]]].
    apply filter_jump_nil_iff in Hc. rewrite Hc in Ef. discriminate Ef.
Qed.

Lemma hint_in_player_moves s mv row col p :
  session_inv s -> cell_at (board_of s) row col = Some p ->
  In mv (getValidMovesForPiece (board_of s) row col) ->
  In mv (getValidMovesForPlayer (board_of s) (pcolor p)).
Proof.
  intros Hs Hp Hmv. unfold getValidMovesForPlayer. apply in_flat_map. exists (row, col).
  split; [apply in_squares_iff; exact (cell_at_Some_range _ _ _ _ (proj2 Hs) Hp)|].
  cbv beta iota. rewrite Hp, color_eqb_refl. exact Hmv.
Qed.

(** a destination the move hints of the server offer to a player for
    one of their pieces, on their turn, is accepted by [makeMove] when the
    piece has a capture or no piece of their color has one: the hints
    already drop steps of a piece that can capture, and skip every piece
    but the one bound to continue capturing. *)
Theorem hints_playable s sid row col ds tr tc pl :
  session_inv s -> get_possible_moves s sid row col = Some ds -> In (tr, tc) ds ->
  lookup_player sid (players s) = Some pl -> color_of pl = currentPlayer s ->
  (getPieceCaptues (board_of s) row col <> [] \/
   getAvailableCaptures (board_of s) (currentPlayer s) = []) ->
  exists cp pr cont w gs s', makeMove row col tr tc sid s = Ret (MoveOk cp pr cont w gs) s'.
Proof.
  intros Hs Hg Hin Hpl Hturn Hcase.
  destruct (hint_move _ _ _ _ _ _ Hg Hin) as [p [pl' [mv [Eg [El [Ec [Eb [Hmv [Ht [Hj1 Hj2]]]]]]]]]].
  rewrite Hpl in El. injection El as <-.
  apply get_cell_Obj in Eg.
  destruct (in_getValidMovesForPiece _ _ _ _ Hmv) as [p' [dr [dc [_ [_ Hmf]]]]].
  assert (Hfrom : mfrom mv = (row, col)) by (destruct Hmf as [[-> _]|[-> _]]; reflexivity).
  assert (HinP : In mv (getValidMovesForPlayer (board_of s) (currentPlayer s))).
  { rewrite <- Hturn, <- Ec. exact (hint_in_player_moves _ _ _ _ _ Hs Eg Hmv). }
  assert (Hb : blocked_by_continuation s (fst (mfrom mv)) (snd (mfrom mv)) = false)
    by (rewrite Hfrom; exact Eb).
  assert (Hobl : is_jump mv = true \/ getAvailableCaptures (board_of s) (currentPlayer s) = [])
    by (destruct Hcase as [H|H]; [left; exact (Hj1 H)|right; exact H]).
  pose proof (listed_moves_ok s sid pl mv Hs Hpl Hturn HinP Hb Hobl) as R.
  rewrite Hfrom, Ht in R. exact R.
Qed.

Lemma hints_playable_witness :
  get_possible_moves start_session "A" 2 1 = Some [(3, 0); (3, 2)] /\
  exists cp pr cont w gs s', makeMove 2 1 3 2 "A" start_session = Ret (MoveOk cp pr cont w gs) s'.
Proof.
  assert (Hg : get_possible_moves start_session "A" 2 1 = Some [(3, 0); (3, 2)])
    by (vm_compute; reflexivity).
  split; [exact Hg|].
  apply (hints_playable start_session "A" 2 1 [(3, 0); (3, 2)] 3 2 (mkPlayer "Ann" red)).
  - apply session_inv_check; vm_compute; reflexivity.
  - exact Hg.
  - right; left; reflexivity.
  - reflexivity.
  - reflexivity.
  - right. vm_compute. reflexivity.
Defined.

(** the move hints of the server only drop the steps of a piece that
    itself can capture: for a piece of the player to move with no capture
    while another piece of their color has one, every destination offered
    is refused by [makeMove] with "Must capture when possible". *)
Theorem hints_refused_when_other_capture s sid row col ds tr tc pl :
  session_inv s -> get_possible_moves s sid row col = Some ds -> In (tr, tc) ds ->
  lookup_player sid (players s) = Some pl -> color_of pl = currentPlayer s ->
  getPieceCaptues (board_of s) row col = [] ->
  getAvailableCaptures (board_of s) (currentPlayer s) <> [] ->
  makeMove row col tr tc sid s = Ret (MoveFail r_must_capture) s.
Proof.
  intros Hs Hg Hin Hpl Hturn Hnone Hsome.
  destruct (hint_move _ _ _ _ _ _ Hg Hin) as [p [pl' [mv [Eg [El [Ec [Eb [Hmv [Ht [Hj1 Hj2]]]]]]]]]].
  rewrite Hpl in El. injection El as <-.
  pose proof (Hj2 Hnone) as Hstep.
  pose proof (get_cell_Obj _ _ _ _ Eg) as Hp.
  destruct (in_getValidMovesForPiece _ _ _ _ Hmv) as [p' [dr [dc [Hp' [Hd Hcase]]]]].
  rewrite Hp in Hp'. injection Hp' as <-.
  destruct Hcase as [[-> [Hib Hem]]|[-> _]]; [|discriminate Hstep].
  cbn [mto] in Ht. injection Ht as <- <-.
  destruct Hs as [Hdk Hw].
  destruct (directions_unit _ _ _ Hd) as [Hdr [Hdc Hfw]].
  destruct (cell_at_Some_range _ _ _ _ Hw Hp) as [Rr Rc].
  apply in_board_spec in Hib as [Rr' Rc'].
  assert (Hv : isValidMove s row col (row + dr) (col + dc) sid =
               Some (match getAvailableCaptures (board_of s) (currentPlayer s) with
                     | [] => ValidStep
                     | _ :: _ => Invalid r_must_capture
                     end)).
  { apply (isValidMove_step_gen _ _ _ _ _ _ pl p); auto.
    - rewrite Ec; exact Hturn.
    - rewrite get_cell_in_range by auto.
      destruct (cell_at (board_of s) (row + dr) (col + dc)); [discriminate Hem|reflexivity].
    - apply (step_parity row col); [lia|lia|exact (Hdk _ _ _ Hp)].
    - lia.
    - lia.
    - destruct (king p); [left; reflexivity|right; rewrite <- Hfw by reflexivity; lia]. }
  destruct (getAvailableCaptures (board_of s) (currentPlayer s)) as [|k ks];
    [exfalso; apply Hsome; reflexivity|].
  unfold makeMove. rewrite Hv. reflexivity.
Qed.

Lemma hints_refused_when_other_capture_witness :
  get_possible_moves hint_session "A" 2 5 = Some [(3, 4); (3, 6)] /\
  makeMove 2 5 3 4 "A" hint_session = Ret (MoveFail r_must_capture) hint_session.
Proof.
  assert (Hg : get_possible_moves hint_session "A" 2 5 = Some [(3, 4); (3, 6)])
    by (vm_compute; reflexivity).
  split; [exact Hg|].
  apply (hints_refused_when_other_capture hint_session "A" 2 5 [(3, 4); (3, 6)] 3 4 (mkPlayer "Ann" red)).
  - apply session_inv_check; vm_compute; reflexivity.
  - exact Hg.
  - left; reflexivity.
  - reflexivity.
  - reflexivity.
  - vm_compute. reflexivity.
  - vm_compute. discriminate.
Defined.
